(** * Compliance analyzer of the policy navigator: a shallow embedding

    The development follows [tools/custom_analysis_tool.py], class
    [PolicyAnalysisTool]: sentence splitting, keyword classification,
    the regular-expression extractors, the report formatter and the
    policy comparator.

    Texts are sequences of 8-bit characters.  The character classes
    ([\s], [\d], [\w]) and [str.lower] are given on the ASCII range, where
    every keyword and pattern of the program lives; characters above 127
    are uncased and belong to no class.  Reports are the byte strings of
    the UTF-8 text the program builds, so the pictographs of the section
    headers appear as their UTF-8 bytes. *)

From Stdlib Require Import Ascii String List Arith Bool Lia DecimalString.
From stdpp Require Import base list strings gmap.
Import ListNotations.

Local Open Scope list_scope.
Local Open Scope nat_scope.

(** ** Strings *)

Abbreviation str := (list ascii).

(** A string literal of the source. *)
Definition L (s : string) : str := list_ascii_of_string s.

Definition code (c : ascii) : nat := nat_of_ascii c.

(** [str.isspace] on one character: TAB..CR, FS..US and the blank. *)
Definition is_space (c : ascii) : bool :=
  ((9 <=? code c) && (code c <=? 13)) || ((28 <=? code c) && (code c <=? 32)).

Definition is_digit (c : ascii) : bool := (48 <=? code c) && (code c <=? 57).
Definition is_upper (c : ascii) : bool := (65 <=? code c) && (code c <=? 90).
Definition is_lower (c : ascii) : bool := (97 <=? code c) && (code c <=? 122).
Definition is_alpha (c : ascii) : bool := is_upper c || is_lower c.

(** The class [\w]: letters, digits and the underscore. *)
Definition is_word (c : ascii) : bool :=
  is_alpha c || is_digit c || (code c =? 95).

Definition lower_char (c : ascii) : ascii :=
  if is_upper c then ascii_of_nat (code c + 32) else c.
Definition upper_char (c : ascii) : ascii :=
  if is_lower c then ascii_of_nat (code c - 32) else c.

(** [s.lower()] and [s.upper()] *)
Definition lower (s : str) : str := map lower_char s.
Definition upper (s : str) : str := map upper_char s.

(** [s.lstrip()], [s.rstrip()], [s.strip()] *)
Fixpoint lstrip (s : str) : str :=
  match s with
  | c :: r => if is_space c then lstrip r else s
  | [] => []
  end.
Definition rstrip (s : str) : str := rev (lstrip (rev s)).
Definition strip (s : str) : str := rstrip (lstrip s).

(** [s.startswith(p)] *)
Fixpoint startswith (p s : str) : bool :=
  match p, s with
  | [], _ => true
  | a :: p', b :: s' => Ascii.eqb a b && startswith p' s'
  | _ :: _, [] => false
  end.

(** [p in s] for strings: [p] occurs in [s] as a contiguous block. *)
Fixpoint contains (s p : str) : bool :=
  startswith p s ||
  match s with
  | [] => false
  | _ :: r => contains r p
  end.

(** [any(keyword in s for keyword in kws)] *)
Definition any_keyword (kws : list str) (s : str) : bool :=
  existsb (contains s) kws.

(** [s.replace(a, b)] for single characters. *)
Definition replace_char (a b : ascii) (s : str) : str :=
  map (fun c => if Ascii.eqb c a then b else c) s.

(** [s.title()]: a letter that follows a letter is lowered, any other
    letter is raised. *)
Fixpoint title_from (prev_cased : bool) (s : str) : str :=
  match s with
  | [] => []
  | c :: r =>
      (if prev_cased then lower_char c else upper_char c)
        :: title_from (is_alpha c) r
  end.
Definition title (s : str) : str := title_from false s.

(** [sep.join(xs)] *)
Fixpoint join (sep : str) (xs : list str) : str :=
  match xs with
  | [] => []
  | [x] => x
  | x :: r => x ++ sep ++ join sep r
  end.

(** [str(n)] for a non-negative integer. *)
Definition str_of_nat (n : nat) : str :=
  L (NilZero.string_of_uint (Nat.to_uint n)).

(** [s[:n]] followed by the ellipsis when [len(s) > n]. *)
Definition clip (n : nat) (s : str) : str :=
  firstn n s ++ (if n <? length s then L "..." else []).

Definition NL : str := L (String (ascii_of_nat 10) EmptyString).

(** ** Sentence splitting: [_split_into_sentences] *)

(** The character set [[.!?]] of the splitting pattern. *)
Definition is_terminator (c : ascii) : bool :=
  Ascii.eqb c "."%char || Ascii.eqb c "!"%char || Ascii.eqb c "?"%char.

(** [re.split(r'[.!?]+', text)]: the pieces between the maximal runs of
    terminators.  [acc] is the current piece, reversed; [in_run] says
    that the previous character was a terminator. *)
Fixpoint re_split (acc : str) (in_run : bool) (text : str) : list str :=
  match text with
  | [] => [rev acc]
  | c :: r =>
      if is_terminator c
      then (if in_run then re_split [] true r
            else rev acc :: re_split [] true r)
      else re_split (c :: acc) false r
  end.

(** [bool(s)] for a string *)
Definition nonempty (s : str) : bool :=
  match s with [] => false | _ :: _ => true end.

(** [[s.strip() for s in sentences if s.strip()]] *)
Definition _split_into_sentences (text : str) : list str :=
  map strip (List.filter (fun s => nonempty (strip s)) (re_split [] false text)).

(** ** The keyword and pattern tables of [__init__] *)

Module compliance_keywords.
Definition mandatory : list str :=
  map L ["must"; "shall"; "required"; "mandatory"; "obligated"; "compelled"]%string.
Definition optional : list str :=
  map L ["may"; "can"; "could"; "optional"; "permitted"; "allowed"]%string.
Definition prohibited : list str :=
  map L ["shall not"; "must not"; "cannot"; "prohibited"; "forbidden"; "banned"]%string.
Definition timeframes : list str :=
  map L ["within"; "by"; "before"; "after"; "days"; "months"; "years"; "immediately"]%string.
Definition penalties : list str :=
  map L ["penalty"; "fine"; "violation"; "sanctions"; "enforcement"; "liability"]%string.
End compliance_keywords.

(** ** Regular expressions

    The fragment of Python's [re] syntax that the program uses, and a
    backtracking matcher with [re]'s priorities: a greedy repetition tries
    one more iteration before it stops, an alternation tries its left
    branch first. *)

Inductive re : Type :=
| Eps                                         (* the empty pattern *)
| Cls (p : ascii -> bool)                     (* one character of a class *)
| Bnd                                         (* \b *)
| Cat (r1 r2 : re)                            (* r1r2 *)
| Alt (r1 r2 : re)                            (* r1|r2 *)
| Rep (r : re) (lo : nat) (hi : option nat)   (* r{lo,hi}, greedy *)
| Grp (n : nat) (r : re).                     (* the n-th capturing group *)

(** Group bindings, the most recent first. *)
Abbreviation caps := (list (nat * str)).

Fixpoint group (n : nat) (c : caps) : option str :=
  match c with
  | [] => None
  | (k, w) :: c' => if n =? k then Some w else group n c'
  end.

Definition below (cnt : nat) (hi : option nat) : bool :=
  match hi with None => true | Some h => cnt <? h end.

(** Whether a word boundary lies between [prev] and the head of [s]. *)
Definition at_boundary (prev : option ascii) (s : str) : bool :=
  xorb (from_option is_word false prev) (from_option is_word false (head s)).

Section Matcher.
Context {X : Type}.

(** The loop of a greedy repetition of [body], which matches the
    repeated pattern: [cnt] iterations are done; one more is tried
    first, and the repetition stops here when that fails.  An iteration
    that consumes nothing is given up; the bodies of this program's
    repetitions always consume a character, so [fuel], the length of
    the text, is never used up before the text is. *)
Fixpoint rep_loop
    (body : option ascii -> str -> caps ->
            (option ascii -> str -> caps -> option X) -> option X)
    (lo : nat) (hi : option nat)
    (k : option ascii -> str -> caps -> option X)
    (fuel cnt : nat) (prev : option ascii) (s : str) (c : caps)
    {struct fuel} : option X :=
  let stop := if lo <=? cnt then k prev s c else None in
  match fuel with
  | 0 => stop
  | S fuel' =>
      if below cnt hi then
        match body prev s c (fun prev' s' c' =>
                if length s' <? length s
                then rep_loop body lo hi k fuel' (S cnt) prev' s' c'
                else None) with
        | Some x => Some x
        | None => stop
        end
      else stop
  end.

(** [rmatch r prev s c k]: match [r] at the front of [s], where [prev]
    is the character before [s] and [c] holds the groups bound so far;
    [k] continues with the rest of the text. *)
Fixpoint rmatch (r : re) (prev : option ascii) (s : str) (c : caps)
    (k : option ascii -> str -> caps -> option X) {struct r} : option X :=
  match r with
  | Eps => k prev s c
  | Cls p =>
      match s with
      | a :: s' => if p a then k (Some a) s' c else None
      | [] => None
      end
  | Bnd => if at_boundary prev s then k prev s c else None
  | Cat r1 r2 =>
      rmatch r1 prev s c (fun prev' s' c' => rmatch r2 prev' s' c' k)
  | Alt r1 r2 =>
      match rmatch r1 prev s c k with
      | Some x => Some x
      | None => rmatch r2 prev s c k
      end
  | Grp n r1 =>
      rmatch r1 prev s c (fun prev' s' c' =>
        k prev' s' ((n, firstn (length s - length s') s) :: c'))
  | Rep r1 lo hi => rep_loop (rmatch r1) lo hi k (length s) 0 prev s c
  end.
End Matcher.

(** A match: where it starts, the text it covers, its groups. *)
Record Match : Type := mkMatch {
  m_start : nat;
  m_text : str;
  m_groups : caps
}.

(** [pattern.match] at one position: the rest of the text and the groups. *)
Definition match_at (r : re) (prev : option ascii) (s : str) : option (str * caps) :=
  rmatch r prev s [] (fun _ s' c' => Some (s', c')).

(** [re.search]: the match at the leftmost position that has one. *)
Fixpoint search_from (r : re) (prev : option ascii) (s : str) (off : nat)
    : option Match :=
  match match_at r prev s with
  | Some (s', c) => Some (mkMatch off (firstn (length s - length s') s) c)
  | None =>
      match s with
      | [] => None
      | a :: s1 => search_from r (Some a) s1 (S off)
      end
  end.

Definition re_search (r : re) (s : str) : option Match := search_from r None s 0.

(** [re.finditer]: the matches from left to right, each search resuming
    where the previous match ended.  [skip] counts the characters still
    covered by the last match.  None of this program's patterns matches
    the empty string. *)
Fixpoint scan (r : re) (prev : option ascii) (s : str) (off skip : nat)
    : list Match :=
  match s with
  | [] =>
      match skip, match_at r prev [] with
      | 0, Some (_, c) => [mkMatch off [] c]
      | _, _ => []
      end
  | a :: s1 =>
      match skip with
      | S skip' => scan r (Some a) s1 (S off) skip'
      | 0 =>
          match match_at r prev s with
          | Some (s', c) =>
              let n := length s - length s' in
              mkMatch off (firstn n s) c :: scan r (Some a) s1 (S off) (n - 1)
          | None => scan r (Some a) s1 (S off) 0
          end
      end
  end.

Definition finditer (r : re) (s : str) : list Match := scan r None s 0 0.

(** [m.group(n)] as [findall] reports it: the empty string for a group
    that took no part in the match. *)
Definition group_text (n : nat) (m : Match) : str :=
  default [] (group n (m_groups m)).

(** [re.findall] for a pattern with one group, and the second component
    of its tuples for a pattern with two. *)
Definition findall1 (r : re) (s : str) : list str := map (group_text 1) (finditer r s).
Definition findall_snd (r : re) (s : str) : list str := map (group_text 2) (finditer r s).
(** [re.findall] for a pattern without groups. *)
Definition findall0 (r : re) (s : str) : list str := map m_text (finditer r s).

(** *** Pattern syntax *)

Definition chr (a : ascii) : re := Cls (Ascii.eqb a).
(** A literal character under [re.IGNORECASE]. *)
Definition chr_ci (a : ascii) : re := Cls (fun b => Ascii.eqb (lower_char b) (lower_char a)).

Fixpoint lit_of (f : ascii -> re) (w : str) : re :=
  match w with
  | [] => Eps
  | [a] => f a
  | a :: w' => Cat (f a) (lit_of f w')
  end.
Definition lit (w : string) : re := lit_of chr (L w).
Definition lit_ci (w : string) : re := lit_of chr_ci (L w).

Definition plus (r : re) : re := Rep r 1 None.
Definition star (r : re) : re := Rep r 0 None.
Definition opt (r : re) : re := Rep r 0 (Some 1).
Definition times (lo hi : nat) (r : re) : re := Rep r lo (Some hi).

Declare Scope re_scope.
Delimit Scope re_scope with re.
Bind Scope re_scope with re.
Infix "<+>" := Cat (at level 57, right associativity) : re_scope.
Infix "<|>" := Alt (at level 58, right associativity) : re_scope.

Module compliance_patterns.
Local Open Scope re_scope.

(** [within\s+(\d+)\s+(days?|months?|years?)] *)
Definition deadline : re :=
  lit "within" <+> plus (Cls is_space) <+> Grp 1 (plus (Cls is_digit)) <+>
  plus (Cls is_space) <+>
  Grp 2 ((lit "day" <+> opt (chr "s")) <|> (lit "month" <+> opt (chr "s"))
         <|> (lit "year" <+> opt (chr "s"))).

(** [(\d+(?:\.\d+)?)\s*%] *)
Definition percentage : re :=
  Grp 1 (plus (Cls is_digit) <+> opt (chr "." <+> plus (Cls is_digit))) <+>
  star (Cls is_space) <+> chr "%".

(** [\$\s*(\d+(?:,\d{3})*(?:\.\d{2})?)] *)
Definition dollar_amount : re :=
  chr "$" <+> star (Cls is_space) <+>
  Grp 1 (plus (Cls is_digit) <+> star (chr "," <+> times 3 3 (Cls is_digit)) <+>
         opt (chr "." <+> times 2 2 (Cls is_digit))).

(** [effective\s+(on\s+)?(\w+\s+\d{1,2},?\s+\d{4})], compiled with
    [re.IGNORECASE] *)
Definition effective_date : re :=
  lit_ci "effective" <+> plus (Cls is_space) <+>
  opt (Grp 1 (lit_ci "on" <+> plus (Cls is_space))) <+>
  Grp 2 (plus (Cls is_word) <+> plus (Cls is_space) <+>
         times 1 2 (Cls is_digit) <+> opt (chr ",") <+>
         plus (Cls is_space) <+> times 4 4 (Cls is_digit)).

(** [\b\w+\b], the word pattern of [_analyze_for_comparison] *)
Definition word : re := Bnd <+> plus (Cls is_word) <+> Bnd.
End compliance_patterns.

(** ** The analysis record of [analyze_compliance_requirements] *)

Record DeadlineMatch : Type := mkDeadline {
  text : str;
  duration : str
}.

Record Analysis : Type := mkAnalysis {
  document_title : str;
  analysis_date : str;
  mandatory_requirements : list str;
  optional_provisions : list str;
  prohibited_actions : list str;
  deadlines : list DeadlineMatch;
  penalties : list str;
  (* a dict in insertion order *)
  key_metrics : list (str * list str)
}.

(** The [append] calls of the loop, one per key of the dict. *)
Definition append_mandatory (a : Analysis) (s : str) : Analysis :=
  mkAnalysis (document_title a) (analysis_date a)
    (mandatory_requirements a ++ [s]) (optional_provisions a)
    (prohibited_actions a) (deadlines a) (penalties a) (key_metrics a).
Definition append_optional (a : Analysis) (s : str) : Analysis :=
  mkAnalysis (document_title a) (analysis_date a)
    (mandatory_requirements a) (optional_provisions a ++ [s])
    (prohibited_actions a) (deadlines a) (penalties a) (key_metrics a).
Definition append_prohibited (a : Analysis) (s : str) : Analysis :=
  mkAnalysis (document_title a) (analysis_date a)
    (mandatory_requirements a) (optional_provisions a)
    (prohibited_actions a ++ [s]) (deadlines a) (penalties a) (key_metrics a).
Definition append_deadline (a : Analysis) (d : DeadlineMatch) : Analysis :=
  mkAnalysis (document_title a) (analysis_date a)
    (mandatory_requirements a) (optional_provisions a)
    (prohibited_actions a) (deadlines a ++ [d]) (penalties a) (key_metrics a).
Definition append_penalty (a : Analysis) (s : str) : Analysis :=
  mkAnalysis (document_title a) (analysis_date a)
    (mandatory_requirements a) (optional_provisions a)
    (prohibited_actions a) (deadlines a) (penalties a ++ [s]) (key_metrics a).
Definition set_key_metrics (a : Analysis) (m : list (str * list str)) : Analysis :=
  mkAnalysis (document_title a) (analysis_date a)
    (mandatory_requirements a) (optional_provisions a)
    (prohibited_actions a) (deadlines a) (penalties a) m.

(** The three primary classes, in the order of the [if]/[elif] chain. *)
Inductive KeywordClass : Type := mandatory | optional | prohibited.

(** The class that the [if]/[elif] chain gives a lowercased sentence. *)
Definition primary_class (sentence_lower : str) : option KeywordClass :=
  if any_keyword compliance_keywords.mandatory sentence_lower then Some mandatory
  else if any_keyword compliance_keywords.optional sentence_lower then Some optional
  else if any_keyword compliance_keywords.prohibited sentence_lower then Some prohibited
  else None.

(** [f"{deadline_match.group(1)} {deadline_match.group(2)}"]; both groups
    take part in every match of the deadline pattern. *)
Definition duration_of (m : Match) : str :=
  group_text 1 m ++ L " " ++ group_text 2 m.

(** One turn of the loop over the sentences. *)
Definition analyze_sentence (analysis : Analysis) (sentence : str) : Analysis :=
  let sentence_lower := lower sentence in
  let analysis :=
    match primary_class sentence_lower with
    | Some mandatory => append_mandatory analysis (strip sentence)
    | Some optional => append_optional analysis (strip sentence)
    | Some prohibited => append_prohibited analysis (strip sentence)
    | None => analysis
    end in
  let analysis :=
    match re_search compliance_patterns.deadline sentence_lower with
    | Some deadline_match =>
        append_deadline analysis
          (mkDeadline (strip sentence) (duration_of deadline_match))
    | None => analysis
    end in
  if any_keyword compliance_keywords.penalties sentence_lower
  then append_penalty analysis (strip sentence)
  else analysis.

(** ** [_extract_metrics] *)

Definition nonnil {A} (l : list A) : bool :=
  match l with [] => false | _ :: _ => true end.

Definition _extract_metrics (document_text : str) : list (str * list str) :=
  let metrics := [] in
  let percentages := findall1 compliance_patterns.percentage document_text in
  let metrics :=
    if nonnil percentages
    then metrics ++ [(L "percentages", map (fun p => p ++ L "%") percentages)]
    else metrics in
  let dollar_amounts := findall1 compliance_patterns.dollar_amount document_text in
  let metrics :=
    if nonnil dollar_amounts
    then metrics ++ [(L "dollar_amounts", map (fun amount => L "$" ++ amount) dollar_amounts)]
    else metrics in
  let dates := findall_snd compliance_patterns.effective_date document_text in
  let metrics :=
    if nonnil dates
    then metrics ++ [(L "effective_dates", dates)]
    else metrics in
  metrics.

(** The analysis before it is formatted.  [now] is the text of
    [datetime.now().strftime("%Y-%m-%d %H:%M:%S")]. *)
Definition analysis_of (now document_text document_title : str) : Analysis :=
  let analysis := mkAnalysis document_title now [] [] [] [] [] [] in
  let sentences := _split_into_sentences document_text in
  let analysis := fold_left analyze_sentence sentences analysis in
  set_key_metrics analysis (_extract_metrics document_text).

(** ** [_format_compliance_analysis] *)

(** The lines [f"{i}. {...}\n"] of an [enumerate(..., 1)] loop, from
    number [i] on. *)
Fixpoint numbered (i : nat) (items : list str) : str :=
  match items with
  | [] => []
  | x :: r => str_of_nat i ++ L ". " ++ x ++ NL ++ numbered (S i) r
  end.

Definition mandatory_section (reqs : list str) : str :=
  if nonnil reqs then
    let output := L "**🔴 MANDATORY REQUIREMENTS (" ++ str_of_nat (length reqs) ++ L "):**" ++ NL in
    let output := output ++ numbered 1 (map (clip 200) (firstn 5 reqs)) in
    let output :=
      if 5 <? length reqs
      then output ++ L "... and " ++ str_of_nat (length reqs - 5) ++ L " more" ++ NL
      else output in
    output ++ NL
  else [].

Definition deadlines_section (ds : list DeadlineMatch) : str :=
  if nonnil ds then
    let output := L "**⏰ CRITICAL DEADLINES (" ++ str_of_nat (length ds) ++ L "):**" ++ NL in
    let output :=
      output ++ numbered 1
        (map (fun deadline => duration deadline ++ L " - " ++ clip 150 (text deadline))
             (firstn 3 ds)) in
    output ++ NL
  else [].

(** The sections for prohibited actions, penalties and optional provisions
    differ in their heading only. *)
Definition plain_section (heading : str) (items : list str) : str :=
  if nonnil items then
    let output := heading ++ str_of_nat (length items) ++ L "):**" ++ NL in
    let output := output ++ numbered 1 (map (clip 200) (firstn 3 items)) in
    output ++ NL
  else [].

Definition prohibited_section : list str -> str := plain_section (L "**🚫 PROHIBITED ACTIONS (").
Definition penalties_section : list str -> str := plain_section (L "**⚖️ PENALTIES & ENFORCEMENT (").
Definition optional_section : list str -> str := plain_section (L "**🟡 OPTIONAL PROVISIONS (").

Definition metric_line (entry : str * list str) : str :=
  let '(metric_type, values) := entry in
  if nonnil values
  then L "- " ++ title (replace_char "_" " " metric_type) ++ L ": "
       ++ join (L ", ") (firstn 5 values) ++ NL
  else [].

Definition metrics_section (metrics : list (str * list str)) : str :=
  if nonnil metrics then
    let output := L "**📊 KEY METRICS:**" ++ NL in
    let output := output ++ concat (map metric_line metrics) in
    output ++ NL
  else [].

Definition recommendation_text : str :=
  L "⚠️ **RECOMMENDATION:** Review all mandatory requirements and deadlines carefully. Consider creating a compliance checklist and calendar reminders for critical dates.".

Definition summary_section (total_requirements total_deadlines total_penalties : nat) : str :=
  let output := L "**📋 COMPLIANCE SUMMARY:**" ++ NL in
  let output := output ++ L "- " ++ str_of_nat total_requirements ++ L " mandatory requirements identified" ++ NL in
  let output := output ++ L "- " ++ str_of_nat total_deadlines ++ L " critical deadlines found" ++ NL in
  let output := output ++ L "- " ++ str_of_nat total_penalties ++ L " penalty provisions noted" ++ NL in
  if (0 <? total_requirements) || (0 <? total_deadlines)
  then output ++ NL ++ recommendation_text
  else output.

Definition _format_compliance_analysis (analysis : Analysis) : str :=
  let output := L "**Policy Compliance Analysis Report**" ++ NL in
  let output :=
    output ++ L "Document: "
      ++ (if nonempty (document_title analysis) then document_title analysis
          else L "Untitled Document") ++ NL in
  let output := output ++ L "Analysis Date: " ++ analysis_date analysis ++ NL ++ NL in
  let output := output ++ mandatory_section (mandatory_requirements analysis) in
  let output := output ++ deadlines_section (deadlines analysis) in
  let output := output ++ prohibited_section (prohibited_actions analysis) in
  let output := output ++ penalties_section (penalties analysis) in
  let output := output ++ optional_section (optional_provisions analysis) in
  let output := output ++ metrics_section (key_metrics analysis) in
  output ++ summary_section (length (mandatory_requirements analysis))
              (length (deadlines analysis)) (length (penalties analysis)).

(** [analyze_compliance_requirements], with the clock reading as an input. *)
Definition analyze_compliance_requirements (now document_text document_title : str) : str :=
  _format_compliance_analysis (analysis_of now document_text document_title).

(** ** The policy comparator *)

Record Comparison : Type := mkComparison {
  mandatory_keywords : list str;
  complexity_score : nat;
  sentence_count : nat
}.

(** The words that one sentence adds to [mandatory_keywords]. *)
Definition sentence_keywords (sentence : str) : list str :=
  let sentence_lower := lower sentence in
  if any_keyword compliance_keywords.mandatory sentence_lower
  then List.filter (fun w => 4 <? length w) (findall0 compliance_patterns.word sentence_lower)
  else [].

(** [_analyze_for_comparison].  [list(set(...))] lists the set in an
    order that Python leaves open; [elements] stands for it. *)
Definition _analyze_for_comparison (document_text : str) : Comparison :=
  let sentences := _split_into_sentences document_text in
  let mandatory_keywords :=
    fold_left (fun acc sentence => acc ++ sentence_keywords sentence) sentences [] in
  let keyword_set : gset str := list_to_set mandatory_keywords in
  let complexity_score := length sentences + size keyword_set * 2 in
  mkComparison (elements keyword_set) complexity_score (length sentences).

Definition keyword_set (c : Comparison) : gset str := list_to_set (mandatory_keywords c).

Definition common_reqs (analysis1 analysis2 : Comparison) : gset str :=
  keyword_set analysis1 ∩ keyword_set analysis2.
Definition unique_to_1 (analysis1 analysis2 : Comparison) : gset str :=
  keyword_set analysis1 ∖ keyword_set analysis2.
Definition unique_to_2 (analysis1 analysis2 : Comparison) : gset str :=
  keyword_set analysis2 ∖ keyword_set analysis1.

(** [f"{len(s)} ({', '.join(list(s)[:5])})"] *)
Definition set_summary (s : gset str) : str :=
  str_of_nat (size s) ++ L " (" ++ join (L ", ") (firstn 5 (elements s)) ++ L ")".

Definition recommendation_line (policy_title : str) : str :=
  L "📝 **RECOMMENDATION:** " ++ policy_title
    ++ L " appears more complex and may require additional compliance resources." ++ NL.

(** The report up to the complexity analysis.  [today] is the text of
    [datetime.now().strftime('%Y-%m-%d')]. *)
Definition comparison_head (today policy1_title policy2_title : str)
    (analysis1 analysis2 : Comparison) : str :=
  let output := L "**Policy Comparison Report**" ++ NL in
  let output := output ++ L "Policy A: " ++ policy1_title ++ NL in
  let output := output ++ L "Policy B: " ++ policy2_title ++ NL in
  let output := output ++ L "Comparison Date: " ++ today ++ NL ++ NL in
  let output := output ++ L "**MANDATORY REQUIREMENTS COMPARISON:**" ++ NL in
  let output := output ++ L "- Common requirements: "
                  ++ set_summary (common_reqs analysis1 analysis2) ++ NL in
  let output := output ++ L "- Unique to " ++ policy1_title ++ L ": "
                  ++ set_summary (unique_to_1 analysis1 analysis2) ++ NL in
  let output := output ++ L "- Unique to " ++ policy2_title ++ L ": "
                  ++ set_summary (unique_to_2 analysis1 analysis2) ++ NL ++ NL in
  let output := output ++ L "**COMPLEXITY ANALYSIS:**" ++ NL in
  let output := output ++ L "- " ++ policy1_title ++ L ": "
                  ++ str_of_nat (complexity_score analysis1) ++ L " complexity score" ++ NL in
  let output := output ++ L "- " ++ policy2_title ++ L ": "
                  ++ str_of_nat (complexity_score analysis2) ++ L " complexity score" ++ NL ++ NL in
  output.

Definition compare_policies (today policy1_text policy1_title policy2_text policy2_title : str)
    : str :=
  let analysis1 := _analyze_for_comparison policy1_text in
  let analysis2 := _analyze_for_comparison policy2_text in
  let output := comparison_head today policy1_title policy2_title analysis1 analysis2 in
  if complexity_score analysis2 <? complexity_score analysis1
  then output ++ recommendation_line policy1_title
  else if complexity_score analysis1 <? complexity_score analysis2
  then output ++ recommendation_line policy2_title
  else output.

(** ** [extract_stakeholders] *)

Module stakeholder_patterns.
Local Open Scope re_scope.

(** A noun with its optional plural [s]. *)
Definition noun (w : string) : re := lit w <+> opt (chr "s").

(** [(financial institutions?|banks?|credit unions?)] *)
Definition financial : re :=
  Grp 1 (noun "financial institution" <|> noun "bank" <|> noun "credit union").
(** [(agencies?|departments?|bureaus?)] *)
Definition agencies : re :=
  Grp 1 (noun "agencie" <|> noun "department" <|> noun "bureau").
(** [(consumers?|individuals?|citizens?)] *)
Definition consumers : re :=
  Grp 1 (noun "consumer" <|> noun "individual" <|> noun "citizen").
(** [(businesses?|companies?|corporations?|entities?)] *)
Definition businesses : re :=
  Grp 1 (noun "businesse" <|> noun "companie" <|> noun "corporation" <|> noun "entitie").
(** [(providers?|services?|platforms?)] *)
Definition providers : re :=
  Grp 1 (noun "provider" <|> noun "service" <|> noun "platform").
(** [(regulators?|supervisors?|authorities?)] *)
Definition regulators : re :=
  Grp 1 (noun "regulator" <|> noun "supervisor" <|> noun "authoritie").

(** The list [stakeholder_patterns], in its order. *)
Definition all : list re :=
  [financial; agencies; consumers; businesses; providers; regulators].
End stakeholder_patterns.

(** [d.setdefault(key, []).append(v)] on a dict in insertion order: a new
    key goes to the end, a known key keeps its place. *)
Fixpoint dict_append (key v : str) (d : list (str * list str)) : list (str * list str) :=
  match d with
  | [] => [(key, [v])]
  | (k, vs) :: d' =>
      if decide (k = key) then (k, vs ++ [v]) :: d'
      else (k, vs) :: dict_append key v d'
  end.

(** The loop over the matches of one pattern in one sentence. *)
Definition add_matches (sentence : str) (stakeholders : list (str * list str))
    (pattern : re) : list (str * list str) :=
  fold_left (fun d m => dict_append (strip m) (strip sentence) d)
    (findall1 pattern (lower sentence)) stakeholders.

(** The loop over the patterns for one sentence. *)
Definition add_sentence (stakeholders : list (str * list str)) (sentence : str)
    : list (str * list str) :=
  fold_left (add_matches sentence) stakeholder_patterns.all stakeholders.

(** The dict [stakeholders] when the loop over the sentences is done. *)
Definition stakeholders_of (document_text : str) : list (str * list str) :=
  fold_left add_sentence (_split_into_sentences document_text) [].

Definition stakeholder_block (entry : str * list str) : str :=
  let '(stakeholder, responsibilities) := entry in
  if nonnil responsibilities then
    let output := L "**" ++ upper stakeholder ++ L ":**" ++ NL in
    let output := output ++ numbered 1 (map (clip 200) (firstn 3 responsibilities)) in
    output ++ NL
  else [].

Definition extract_stakeholders (document_text : str) : str :=
  let stakeholders := stakeholders_of document_text in
  let output := L "**Stakeholder Responsibility Analysis**" ++ NL ++ NL in
  output ++ concat (map stakeholder_block stakeholders).

(** ** [CustomPolicyTool], the wrapper that the agent registers *)

Definition analyze_policy_compliance (now document_text document_title : str) : str :=
  analyze_compliance_requirements now document_text document_title.

Definition extract_policy_stakeholders (document_text : str) : str :=
  extract_stakeholders document_text.

(** ** The checks that the agent and the unit test make on a report

    [test_components] of the agent takes the custom analysis for working
    when ["compliance" in ca_result.lower()]; the unit test asserts the
    same and ["mandatory" in result.lower()]. *)

Definition custom_analysis_check (ca_result : str) : bool :=
  contains (lower ca_result) (L "compliance").

Definition unit_test_check (result : str) : bool :=
  contains (lower result) (L "compliance") && contains (lower result) (L "mandatory").

(** * Notions for the statements *)

#[local] Instance KeywordClass_eq_dec : EqDecision KeywordClass.
Proof. solve_decision. Defined.

(** The sentence's primary class is [k]. *)
Definition in_class (k : KeywordClass) (sentence : str) : bool :=
  bool_decide (primary_class (lower sentence) = Some k).

Definition has_penalty (sentence : str) : bool :=
  any_keyword compliance_keywords.penalties (lower sentence).

(** The deadline entry that a sentence contributes, if any. *)
Definition deadline_of (sentence : str) : option DeadlineMatch :=
  match re_search compliance_patterns.deadline (lower sentence) with
  | Some deadline_match => Some (mkDeadline (strip sentence) (duration_of deadline_match))
  | None => None
  end.

(** The sections of the report, after its three heading lines. *)
Definition report_sections (a : Analysis) : str :=
  mandatory_section (mandatory_requirements a)
  ++ deadlines_section (deadlines a)
  ++ prohibited_section (prohibited_actions a)
  ++ penalties_section (penalties a)
  ++ optional_section (optional_provisions a)
  ++ metrics_section (key_metrics a)
  ++ summary_section (length (mandatory_requirements a))
       (length (deadlines a)) (length (penalties a)).

(** The character before position [j] of [s], where [prev] is the one
    before [s]. *)
Definition char_before (prev : option ascii) (s : str) (j : nat) : option ascii :=
  match j with
  | 0 => prev
  | S j' => nth_error s j'
  end.

(** No match of [r] starts before position [n] of [s]. *)
Definition no_match_before (r : re) (s : str) (n : nat) : Prop :=
  forall j, j < n -> match_at r (char_before None s j) (skipn j s) = None.

(** Whether [r] can match the empty text, and whether a match of [r]
    can begin with the character [a]; both err on the side of yes. *)
Fixpoint nullable (r : re) : bool :=
  match r with
  | Eps | Bnd => true
  | Cls _ => false
  | Cat r1 r2 => nullable r1 && nullable r2
  | Alt r1 r2 => nullable r1 || nullable r2
  | Rep _ lo _ => lo =? 0
  | Grp _ r1 => nullable r1
  end.

Fixpoint first (r : re) (a : ascii) : bool :=
  match r with
  | Eps | Bnd => false
  | Cls p => p a
  | Cat r1 r2 => first r1 a || (nullable r1 && first r2 a)
  | Alt r1 r2 => first r1 a || first r2 a
  | Rep r1 _ _ => first r1 a
  | Grp _ r1 => first r1 a
  end.

(** The text begins with a character that can begin a match of [r]. *)
Definition begins (r : re) (s : str) : Prop :=
  exists a s', s = a :: s' /\ first r a = true.

(** [Matches r w c c']: the pattern [r] matches exactly the text [w] and
    turns the group bindings [c] into [c'].  Word boundaries are not
    checked here. *)
Inductive Matches : re -> str -> caps -> caps -> Prop :=
| M_eps c : Matches Eps [] c c
| M_cls p a c : p a = true -> Matches (Cls p) [a] c c
| M_bnd c : Matches Bnd [] c c
| M_cat r1 r2 w1 w2 c c1 c2 :
    Matches r1 w1 c c1 -> Matches r2 w2 c1 c2 ->
    Matches (Cat r1 r2) (w1 ++ w2) c c2
| M_alt_l r1 r2 w c c' : Matches r1 w c c' -> Matches (Alt r1 r2) w c c'
| M_alt_r r1 r2 w c c' : Matches r2 w c c' -> Matches (Alt r1 r2) w c c'
| M_grp n r w c c' : Matches r w c c' -> Matches (Grp n r) w c ((n, w) :: c')
| M_rep_stop r hi c : Matches (Rep r 0 hi) [] c c
| M_rep_more r lo hi w1 w2 c c1 c2 :
    below 0 hi = true -> w1 <> [] ->
    Matches r w1 c c1 ->
    Matches (Rep r (pred lo) (option_map pred hi)) w2 c1 c2 ->
    Matches (Rep r lo hi) (w1 ++ w2) c c2.

(** The ways to cut a text in two. *)
Fixpoint splits (w : str) : list (str * str) :=
  ([], w) ::
  match w with
  | [] => []
  | a :: w' => map (fun '(w1, w2) => (a :: w1, w2)) (splits w')
  end.

(** The bindings of the matches of a repetition of [body] with [w]. *)
Fixpoint rep_parses (body : str -> caps -> list caps)
    (lo : nat) (hi : option nat) (fuel : nat) (w : str) (c : caps) : list caps :=
  (if (lo =? 0) && negb (nonempty w) then [c] else []) ++
  match fuel with
  | 0 => []
  | S fuel' =>
      if below 0 hi then
        flat_map (fun '(w1, w2) =>
                    if nonempty w1
                    then flat_map (rep_parses body (pred lo) (option_map pred hi) fuel' w2)
                           (body w1 c)
                    else [])
          (splits w)
      else []
  end.

(** The bindings of all the ways in which [r] matches exactly [w]. *)
Fixpoint parses (r : re) (w : str) (c : caps) : list caps :=
  match r with
  | Eps | Bnd => if nonempty w then [] else [c]
  | Cls p =>
      match w with
      | [a] => if p a then [c] else []
      | _ => []
      end
  | Cat r1 r2 =>
      flat_map (fun '(w1, w2) => flat_map (parses r2 w2) (parses r1 w1 c)) (splits w)
  | Alt r1 r2 => parses r1 w c ++ parses r2 w c
  | Grp n r1 => map (fun c' => (n, w) :: c') (parses r1 w c)
  | Rep r1 lo hi => rep_parses (parses r1) lo hi (length w) w c
  end.

(** What the matcher [f] consumed is a match of [r]. *)
Definition sound_for {X : Type} (r : re)
    (f : option ascii -> str -> caps ->
         (option ascii -> str -> caps -> option X) -> option X) : Prop :=
  forall prev s c k x, f prev s c k = Some x ->
    exists w prev' s' c',
      s = w ++ s' /\ Matches r w c c' /\ k prev' s' c' = Some x.

(** The matches start at or after [lo], one after the end of the other. *)
Fixpoint spans_from (lo : nat) (ms : list Match) : Prop :=
  match ms with
  | [] => True
  | m :: ms' => lo <= m_start m /\ spans_from (m_start m + length (m_text m)) ms'
  end.

(** The text of the match stands in the document at the match's start. *)
Definition occurs_at (doc : str) (m : Match) : Prop :=
  exists pre post, doc = pre ++ m_text m ++ post /\ length pre = m_start m.

(** Position [j] is the start of one of the matches or lies inside one. *)
Definition covered (ms : list Match) (j : nat) : Prop :=
  exists m, In m ms /\ m_start m <= j < m_start m + Nat.max 1 (length (m_text m)).

(** *** Static facts about patterns *)

(** Every character. *)
Definition all_ascii : list ascii := map ascii_of_nat (seq 0 256).

(** Every character of the class [q] is in the class [p]. *)
Definition cls_sub (q p : ascii -> bool) : bool :=
  forallb (fun a => implb (q a) (p a)) all_ascii.


(** Every match of [r] has a character in [p]. *)
Fixpoint needs (p : ascii -> bool) (r : re) : bool :=
  match r with
  | Eps | Bnd => false
  | Cls q => cls_sub q p
  | Cat r1 r2 => needs p r1 || needs p r2
  | Alt r1 r2 => needs p r1 && needs p r2
  | Rep r1 lo _ => (0 <? lo) && needs p r1
  | Grp _ r1 => needs p r1
  end.


(** The texts made of at most [h] texts of [ws]. *)
Fixpoint rep_words (ws : list str) (h : nat) : list str :=
  match h with
  | 0 => [[]]
  | S h' => [] :: flat_map (fun w1 => map (app w1) (rep_words ws h')) ws
  end.

(** The texts that [r] can match, when no repetition of [r] is unbounded. *)
Fixpoint words (r : re) : option (list str) :=
  match r with
  | Eps | Bnd => Some [[]]
  | Cls q => Some (map (fun a => [a]) (List.filter q all_ascii))
  | Cat r1 r2 =>
      match words r1, words r2 with
      | Some ws1, Some ws2 => Some (flat_map (fun w1 => map (app w1) ws2) ws1)
      | _, _ => None
      end
  | Alt r1 r2 =>
      match words r1, words r2 with
      | Some ws1, Some ws2 => Some (ws1 ++ ws2)
      | _, _ => None
      end
  | Rep r1 _ (Some h) =>
      match words r1 with
      | Some ws1 => Some (rep_words ws1 h)
      | None => None
      end
  | Rep _ _ None => None
  | Grp _ r1 => words r1
  end.


(** [d.get(key)] *)
Fixpoint dict_get (key : str) (d : list (str * list str)) : option (list str) :=
  match d with
  | [] => None
  | (k, v) :: d' => if decide (k = key) then Some v else dict_get key d'
  end.






(** The nouns of the stakeholder patterns, each without and with its
    plural [s], in the order of the patterns. *)
Definition stakeholder_nouns : list str :=
  flat_map (fun w => [L w; L w ++ L "s"])
    ["financial institution"; "bank"; "credit union";
     "agencie"; "department"; "bureau";
     "consumer"; "individual"; "citizen";
     "businesse"; "companie"; "corporation"; "entitie";
     "provider"; "service"; "platform";
     "regulator"; "supervisor"; "authoritie"]%string.

(** The number of sentences listed in a stakeholder dict, over all keys. *)
Definition entries (d : list (str * list str)) : nat :=
  list_sum (map (fun e => length (snd e)) d).

(** The number of matches of the stakeholder patterns in a sentence. *)
Definition matches_in (sentence : str) : nat :=
  list_sum (map (fun pattern => length (findall1 pattern (lower sentence)))
              stakeholder_patterns.all).

(** A document with one amount, one percentage and one effective date. *)
Definition sample_document : str :=
  L "Fines of up to $10,000 apply. A surcharge of 50% is due. The rule is effective on January 1, 2024.".

(** * Properties *)

(** ** Stripping *)

Lemma lstrip_fixed (s : str) :
  from_option is_space false (head s) = false -> lstrip s = s.
Proof. destruct s as [|c r]; simpl; [easy|]. now intros ->. Qed.

Lemma lstrip_head (s : str) : from_option is_space false (head (lstrip s)) = false.
Proof.
  induction s as [|c r IH]; simpl; [easy|].
  destruct (is_space c) eqn:E; [exact IH|]. simpl. exact E.
Qed.

Lemma lstrip_suffix (s : str) : exists p, s = p ++ lstrip s.
Proof.
  induction s as [|c r [p IH]]; simpl.
  - now exists [].
  - destruct (is_space c).
    + exists (c :: p). simpl. now f_equal.
    + now exists [].
Qed.

Lemma head_rev_prefix (p v : str) :
  v <> [] -> head (rev (p ++ v)) = head (rev v).
Proof.
  intros Hv. rewrite rev_app_distr.
  destruct (rev v) as [|a t] eqn:E; [|reflexivity].
  apply (f_equal (@rev ascii)) in E. rewrite rev_involutive in E. now subst.
Qed.

(** What [strip] returns has no blank at either end. *)
Lemma strip_clean (s : str) :
  from_option is_space false (head (strip s)) = false /\
  from_option is_space false (head (rev (strip s))) = false.
Proof.
  unfold strip, rstrip. set (t := lstrip s).
  split.
  - pose proof (lstrip_head s) as Ht. fold t in Ht.
    destruct (lstrip_suffix (rev t)) as [p Hp].
    destruct (lstrip (rev t)) as [|a v] eqn:Ev; [reflexivity|].
    assert (Hh : head (rev (a :: v)) = head t).
    { rewrite <- (head_rev_prefix p (a :: v)) by easy.
      now rewrite <- Hp, rev_involutive. }
    now rewrite Hh.
  - rewrite rev_involutive. apply lstrip_head.
Qed.

Lemma strip_fixed (s : str) :
  from_option is_space false (head s) = false ->
  from_option is_space false (head (rev s)) = false ->
  strip s = s.
Proof.
  intros H1 H2. unfold strip, rstrip.
  rewrite (lstrip_fixed s H1), (lstrip_fixed (rev s) H2).
  apply rev_involutive.
Qed.

Lemma strip_idempotent (s : str) : strip (strip s) = strip s.
Proof. destruct (strip_clean s). now apply strip_fixed. Qed.

(** A sentence of the split is already stripped, and is not empty. *)
Lemma sentence_stripped (doc s : str) :
  In s (_split_into_sentences doc) -> strip s = s /\ s <> [].
Proof.
  unfold _split_into_sentences. rewrite in_map_iff.
  intros (x & <- & Hx). apply filter_In in Hx as [_ Hx].
  split; [apply strip_idempotent|].
  now destruct (strip x).
Qed.

(** ** The loop over the sentences *)

Lemma fold_analyze (ss : list str) : forall a : Analysis,
  let r := fold_left analyze_sentence ss a in
  document_title r = document_title a /\
  analysis_date r = analysis_date a /\
  mandatory_requirements r =
    mandatory_requirements a ++ map strip (List.filter (in_class mandatory) ss) /\
  optional_provisions r =
    optional_provisions a ++ map strip (List.filter (in_class optional) ss) /\
  prohibited_actions r =
    prohibited_actions a ++ map strip (List.filter (in_class prohibited) ss) /\
  deadlines r = deadlines a ++ omap deadline_of ss /\
  penalties r = penalties a ++ map strip (List.filter has_penalty ss) /\
  key_metrics r = key_metrics a.
Proof.
  induction ss as [|s ss IH]; intros a; simpl.
  - now rewrite !app_nil_r.
  - specialize (IH (analyze_sentence a s)). simpl in IH.
    destruct IH as (-> & -> & -> & -> & -> & -> & -> & ->).
    unfold analyze_sentence, in_class, has_penalty, deadline_of.
    destruct (primary_class (lower s)) as [[]|];
      destruct (re_search compliance_patterns.deadline (lower s));
      destruct (any_keyword compliance_keywords.penalties (lower s));
      simpl; rewrite <- ?app_assoc; simpl; repeat split; reflexivity.
Qed.

(** The fields of the analysis, as lists over the sentences. *)
Lemma analysis_fields (now doc ttl : str) :
  let a := analysis_of now doc ttl in
  let ss := _split_into_sentences doc in
  document_title a = ttl /\
  analysis_date a = now /\
  mandatory_requirements a = map strip (List.filter (in_class mandatory) ss) /\
  optional_provisions a = map strip (List.filter (in_class optional) ss) /\
  prohibited_actions a = map strip (List.filter (in_class prohibited) ss) /\
  deadlines a = omap deadline_of ss /\
  penalties a = map strip (List.filter has_penalty ss) /\
  key_metrics a = _extract_metrics doc.
Proof.
  unfold analysis_of. simpl.
  pose proof (fold_analyze (_split_into_sentences doc)
                (mkAnalysis ttl now [] [] [] [] [] [])) as H.
  simpl in H. destruct H as (H1 & H2 & H3 & H4 & H5 & H6 & H7 & H8).
  repeat split; assumption.
Qed.

(** Membership in a class list: the sentences of that class. *)
Lemma in_filtered (f : str -> bool) (doc s : str) :
  In s (map strip (List.filter f (_split_into_sentences doc))) <->
  In s (_split_into_sentences doc) /\ f s = true.
Proof.
  rewrite in_map_iff. split.
  - intros (x & <- & Hx). apply filter_In in Hx as [Hx Hf].
    destruct (sentence_stripped doc x Hx) as [-> _]. now split.
  - intros [Hs Hf]. exists s. split.
    + now destruct (sentence_stripped doc s Hs).
    + apply filter_In. now split.
Qed.

(** ** Classification *)

Lemma in_class_mandatory (s : str) :
  in_class mandatory s = any_keyword compliance_keywords.mandatory (lower s).
Proof.
  unfold in_class, primary_class.
  destruct (any_keyword compliance_keywords.mandatory _); [reflexivity|].
  destruct (any_keyword compliance_keywords.optional _); [reflexivity|].
  now destruct (any_keyword compliance_keywords.prohibited _).
Qed.

Lemma in_class_optional (s : str) :
  in_class optional s =
  negb (any_keyword compliance_keywords.mandatory (lower s))
  && any_keyword compliance_keywords.optional (lower s).
Proof.
  unfold in_class, primary_class.
  destruct (any_keyword compliance_keywords.mandatory _); [reflexivity|].
  destruct (any_keyword compliance_keywords.optional _); [reflexivity|].
  now destruct (any_keyword compliance_keywords.prohibited _).
Qed.

Lemma in_class_prohibited (s : str) :
  in_class prohibited s =
  negb (any_keyword compliance_keywords.mandatory (lower s))
  && negb (any_keyword compliance_keywords.optional (lower s))
  && any_keyword compliance_keywords.prohibited (lower s).
Proof.
  unfold in_class, primary_class.
  destruct (any_keyword compliance_keywords.mandatory _); [reflexivity|].
  destruct (any_keyword compliance_keywords.optional _); [reflexivity|].
  now destruct (any_keyword compliance_keywords.prohibited _).
Qed.

(** A sentence has one primary class at most. *)
Lemma in_class_unique (k1 k2 : KeywordClass) (s : str) :
  in_class k1 s = true -> in_class k2 s = true -> k1 = k2.
Proof.
  unfold in_class. intros H1%bool_decide_eq_true H2%bool_decide_eq_true.
  congruence.
Qed.

(** ** Substrings *)

Lemma startswith_app (p q s : str) :
  startswith (p ++ q) s = true -> startswith p s = true.
Proof.
  revert s. induction p as [|a p IH]; intros s; simpl; [easy|].
  destruct s as [|b s]; [easy|].
  intros [-> H]%andb_prop. simpl. now apply IH.
Qed.

(** A text that contains a phrase contains each beginning of the phrase. *)
Lemma contains_app (s p q : str) :
  contains s (p ++ q) = true -> contains s p = true.
Proof.
  induction s as [|c s IH]; simpl.
  - rewrite !orb_false_r. apply startswith_app.
  - intros [H|H]%orb_prop.
    + now rewrite (startswith_app _ _ _ H).
    + rewrite (IH H). apply orb_true_r.
Qed.

(** ** Searching *)

Lemma search_from_leftmost (r : re) (s : str) :
  forall prev off m,
  search_from r prev s off = Some m ->
  off <= m_start m /\
  forall j, j < m_start m - off ->
    match_at r (char_before prev s j) (skipn j s) = None.
Proof.
  induction s as [|a s IH]; intros prev off m; simpl.
  - destruct (match_at r prev []) as [[s' c]|]; [|easy].
    intros [= <-]. simpl. split; [lia|]. intros j Hj. lia.
  - destruct (match_at r prev (a :: s)) as [[s' c]|] eqn:E.
    + intros [= <-]. simpl. split; [lia|]. intros j Hj. lia.
    + intros H. destruct (IH _ _ _ H) as [Hle Hno].
      split; [lia|]. intros [|j] Hj; [exact E|].
      simpl. specialize (Hno j ltac:(lia)).
      destruct j; exact Hno.
Qed.

Lemma re_search_leftmost (r : re) (s : str) (m : Match) :
  re_search r s = Some m -> no_match_before r s (m_start m).
Proof.
  intros H. destruct (search_from_leftmost r s None 0 m H) as [_ Hno].
  intros j Hj. apply Hno. lia.
Qed.

Lemma length_omap_le {A B} (f : A -> option B) (l : list A) :
  length (omap f l) <= length l.
Proof.
  induction l as [|x l IH]; cbn; [lia|].
  destruct (f x); cbn; lia.
Qed.

(** ** The primary classes and the penalty list *)

(** The first three prohibited triggers never decide: a sentence of the
    prohibited class contains "prohibited", "forbidden" or "banned". *)
Lemma prohibited_deciding_triggers (s : str) :
  primary_class s = Some prohibited ->
  any_keyword (map L ["prohibited"; "forbidden"; "banned"]%string) s = true.
Proof.
  unfold primary_class.
  destruct (any_keyword compliance_keywords.mandatory s) eqn:Hm; [easy|].
  destruct (any_keyword compliance_keywords.optional s) eqn:Ho; [easy|].
  destruct (any_keyword compliance_keywords.prohibited s) eqn:Hp; [|easy].
  intros _. unfold any_keyword in *. cbn [existsb map] in *.
  cbn [compliance_keywords.mandatory compliance_keywords.optional
       compliance_keywords.prohibited existsb map] in *.
  pose proof (contains_app s (L "shall") (L " not")) as H1.
  pose proof (contains_app s (L "must") (L " not")) as H2.
  pose proof (contains_app s (L "can") (L "not")) as H3.
  change (L "shall" ++ L " not") with (L "shall not") in H1.
  change (L "must" ++ L " not") with (L "must not") in H2.
  change (L "can" ++ L "not") with (L "cannot") in H3.
  destruct (contains s (L "shall not")); [now rewrite H1, orb_true_r in Hm|].
  destruct (contains s (L "must not")); [now rewrite H2 in Hm|].
  destruct (contains s (L "cannot")); [now rewrite H3, !orb_true_r in Ho|].
  exact Hp.
Qed.

(** C1, as the code has it: the sentence "Entities shall not engage in
    prohibited transactions." is put into [mandatory_requirements], and
    neither into [prohibited_actions] nor into [optional_provisions]: its
    lowercased text contains the mandatory trigger "shall", and the
    mandatory triggers are tested first. *)
Theorem shall_not_sentence_is_mandatory (now ttl : str) :
  let a := analysis_of now (L "Entities shall not engage in prohibited transactions.") ttl in
  mandatory_requirements a = [L "Entities shall not engage in prohibited transactions"] /\
  optional_provisions a = [] /\
  prohibited_actions a = [].
Proof. vm_compute. repeat split. Qed.

(** C3: for every document the lists of mandatory requirements, optional
    provisions and prohibited actions are pairwise disjoint as lists of
    sentence texts; a sentence is in the list of the first trigger set
    that matches it, in the order mandatory, optional, prohibited;
    membership in the penalty list depends on the penalty triggers alone,
    and a sentence of each primary list can be in the penalty list at
    once. *)
Theorem primary_classes_disjoint_penalties_independent :
  (forall now doc ttl s,
     let a := analysis_of now doc ttl in
     let ss := _split_into_sentences doc in
     let mand := any_keyword compliance_keywords.mandatory (lower s) in
     let opt := any_keyword compliance_keywords.optional (lower s) in
     let proh := any_keyword compliance_keywords.prohibited (lower s) in
     let pen := any_keyword compliance_keywords.penalties (lower s) in
     ~ (In s (mandatory_requirements a) /\ In s (optional_provisions a)) /\
     ~ (In s (mandatory_requirements a) /\ In s (prohibited_actions a)) /\
     ~ (In s (optional_provisions a) /\ In s (prohibited_actions a)) /\
     (In s (mandatory_requirements a) <-> In s ss /\ mand = true) /\
     (In s (optional_provisions a) <-> In s ss /\ mand = false /\ opt = true) /\
     (In s (prohibited_actions a) <->
        In s ss /\ mand = false /\ opt = false /\ proh = true) /\
     (In s (penalties a) <-> In s ss /\ pen = true)) /\
  (exists doc s1 s2 s3, forall now ttl,
     let a := analysis_of now doc ttl in
     (In s1 (mandatory_requirements a) /\ In s1 (penalties a)) /\
     (In s2 (optional_provisions a) /\ In s2 (penalties a)) /\
     (In s3 (prohibited_actions a) /\ In s3 (penalties a))).
Proof.
  split.
  - intros now doc ttl s a ss mand opt proh pen.
    destruct (analysis_fields now doc ttl) as (_ & _ & Hm & Ho & Hp & _ & Hpen & _).
    fold a in Hm, Ho, Hp, Hpen. rewrite Hm, Ho, Hp, Hpen.
    rewrite !in_filtered.
    rewrite in_class_mandatory, in_class_optional, in_class_prohibited.
    fold mand opt proh. unfold has_penalty. fold pen. fold ss.
    destruct mand, opt, proh; simpl; intuition congruence.
  - exists (L "Firms must pay the fine. Others may risk a penalty. Fraud is banned under sanctions."),
      (L "Firms must pay the fine"), (L "Others may risk a penalty"),
      (L "Fraud is banned under sanctions").
    intros now ttl. vm_compute. intuition.
Qed.

(** C4: on "Companies must comply within 30 days." the analysis has that
    sentence as its one mandatory requirement, one deadline entry, for
    that sentence and with duration "30 days", and no prohibited action. *)
Theorem must_comply_within_30_days (now ttl : str) :
  let a := analysis_of now (L "Companies must comply within 30 days.") ttl in
  mandatory_requirements a = [L "Companies must comply within 30 days"] /\
  deadlines a = [mkDeadline (L "Companies must comply within 30 days") (L "30 days")] /\
  prohibited_actions a = [].
Proof. vm_compute. repeat split. Qed.

(** C9: a sentence whose lowercased text contains "cannot" and no
    mandatory trigger has the primary class optional, because it contains
    the optional trigger "can"; it is never among the prohibited actions,
    and when it is a sentence of the document it is among the optional
    provisions. *)
Theorem cannot_is_never_the_deciding_cue (now doc ttl s : str) :
  contains (lower s) (L "cannot") = true ->
  any_keyword compliance_keywords.mandatory (lower s) = false ->
  let a := analysis_of now doc ttl in
  primary_class (lower s) = Some optional /\
  ~ In s (prohibited_actions a) /\
  (In s (_split_into_sentences doc) -> In s (optional_provisions a)).
Proof.
  intros Hcannot Hmand a.
  assert (Hcan : contains (lower s) (L "can") = true)
    by exact (contains_app (lower s) (L "can") (L "not") Hcannot).
  assert (Hopt : any_keyword compliance_keywords.optional (lower s) = true).
  { unfold any_keyword, compliance_keywords.optional. simpl.
    change (L "can") with (list_ascii_of_string "can") in Hcan.
    simpl in Hcan. rewrite Hcan. now rewrite orb_true_r. }
  assert (Hclass : primary_class (lower s) = Some optional).
  { unfold primary_class. now rewrite Hmand, Hopt. }
  destruct (analysis_fields now doc ttl) as (_ & _ & _ & Ho & Hp & _).
  fold a in Ho, Hp. rewrite Ho, Hp, !in_filtered.
  split; [exact Hclass|]. split.
  - intros [_ H]. rewrite in_class_prohibited, Hmand, Hopt in H. discriminate.
  - intros Hs. split; [exact Hs|]. now rewrite in_class_optional, Hmand, Hopt.
Qed.

Lemma cannot_is_never_the_deciding_cue_witness :
  let s := L "Firms cannot pay" in
  let a := analysis_of (L "2024-01-01 00:00:00") (L "Firms cannot pay.") (L "T") in
  primary_class (lower s) = Some optional /\
  ~ In s (prohibited_actions a) /\
  (In s (_split_into_sentences (L "Firms cannot pay.")) -> In s (optional_provisions a)).
Proof.
  apply (cannot_is_never_the_deciding_cue
           (L "2024-01-01 00:00:00") (L "Firms cannot pay.") (L "T") (L "Firms cannot pay"));
    reflexivity.
Defined.

(** ** Deadlines *)

(** C10: the deadline list has one entry for each sentence in which the
    deadline pattern is found, in the order of the sentences, so it is
    never longer than the list of sentences; an entry records the match
    that [re.search] returns, before which the sentence has no match of
    the pattern; a sentence with two such phrases gives one entry, for
    the first. *)
Theorem one_deadline_per_sentence :
  (forall now doc ttl,
     let a := analysis_of now doc ttl in
     let ss := _split_into_sentences doc in
     deadlines a = omap deadline_of ss /\
     length (deadlines a) <= length ss) /\
  (forall s d, deadline_of s = Some d ->
     exists m,
       re_search compliance_patterns.deadline (lower s) = Some m /\
       d = mkDeadline (strip s) (duration_of m) /\
       no_match_before compliance_patterns.deadline (lower s) (m_start m)) /\
  (forall now ttl,
     deadlines (analysis_of now (L "File within 30 days and pay within 2 years.") ttl) =
     [mkDeadline (L "File within 30 days and pay within 2 years") (L "30 days")]).
Proof.
  split; [|split].
  - intros now doc ttl a ss.
    destruct (analysis_fields now doc ttl) as (_ & _ & _ & _ & _ & Hd & _).
    fold a ss in Hd. rewrite Hd. split; [reflexivity|apply length_omap_le].
  - intros s d. unfold deadline_of.
    destruct (re_search compliance_patterns.deadline (lower s)) as [m|] eqn:E; [|easy].
    intros [= <-]. exists m. split; [reflexivity|]. split; [reflexivity|].
    now apply re_search_leftmost.
  - intros now ttl. vm_compute. reflexivity.
Qed.

(** ** Documents of blanks *)

Lemma space_char (a : ascii) :
  is_space a = true ->
  is_terminator a = false /\ is_digit a = false /\
  Ascii.eqb "$" a = false /\
  Ascii.eqb (lower_char a) (lower_char "e") = false.
Proof.
  destruct a as [[] [] [] [] [] [] [] []]; vm_compute; intuition discriminate.
Qed.

Lemma re_split_blank (doc : str) : forall acc b,
  forallb is_space doc = true -> re_split acc b doc = [rev acc ++ doc].
Proof.
  induction doc as [|a doc IH]; intros acc b; simpl.
  - now rewrite app_nil_r.
  - intros [Ha Hdoc]%andb_prop.
    destruct (space_char a Ha) as (-> & _).
    rewrite (IH _ _ Hdoc). simpl. now rewrite <- app_assoc.
Qed.

Lemma lstrip_blank (doc : str) : forallb is_space doc = true -> lstrip doc = [].
Proof.
  induction doc as [|a doc IH]; simpl; [easy|].
  intros [-> Hdoc]%andb_prop. now apply IH.
Qed.

Lemma sentences_blank (doc : str) :
  forallb is_space doc = true -> _split_into_sentences doc = [].
Proof.
  intros H. unfold _split_into_sentences.
  rewrite (re_split_blank doc [] false H). simpl.
  unfold strip. rewrite (lstrip_blank doc H). reflexivity.
Qed.

Section First.
Context {X : Type}.
Implicit Type k : option ascii -> str -> caps -> option X.

Lemma rep_loop_first body (r : re) lo hi k :
  (forall prev s c k x, body prev s c k = Some x ->
     (exists prev' c', k prev' s c' = Some x) \/ begins r s) ->
  forall fuel cnt prev s c x,
  rep_loop body lo hi k fuel cnt prev s c = Some x ->
  (lo <= cnt /\ k prev s c = Some x) \/ begins r s.
Proof.
  intros Hbody fuel cnt prev s c x.
  assert (Hstop : (if lo <=? cnt then k prev s c else None) = Some x ->
                  (lo <= cnt /\ k prev s c = Some x) \/ begins r s).
  { destruct (Nat.leb_spec lo cnt); [|easy]. now left. }
  destruct fuel as [|fuel]; simpl; [exact Hstop|].
  destruct (below cnt hi); [|exact Hstop].
  destruct (body prev s c _) as [y|] eqn:E; [|exact Hstop].
  intros [= ->]. apply Hbody in E as [(prev' & c' & E)|E]; [|now right].
  now rewrite Nat.ltb_irrefl in E.
Qed.

(** A successful match either left the text as it was, for a pattern
    that can match the empty text, or began with a character that can
    begin a match. *)
Lemma rmatch_first (r : re) : forall prev s c k x,
  rmatch r prev s c k = Some x ->
  (nullable r = true /\ exists prev' c', k prev' s c' = Some x) \/ begins r s.
Proof.
  induction r as [|p| |r1 IH1 r2 IH2|r1 IH1 r2 IH2|r1 IH1 lo hi|n r1 IH1];
    intros prev s c k x; simpl.
  - intros H. left. split; [reflexivity|]. now exists prev, c.
  - destruct s as [|a s']; [easy|]. destruct (p a) eqn:E; [|easy].
    intros _. right. now exists a, s'.
  - destruct (at_boundary prev s); [|easy].
    intros H. left. split; [reflexivity|]. now exists prev, c.
  - intros H. apply IH1 in H as [(N1 & prev1 & c1 & H)|(a & s' & -> & F)].
    + apply IH2 in H as [(N2 & prev2 & c2 & H)|(a & s' & -> & F)].
      * left. rewrite N1, N2. split; [reflexivity|]. now exists prev2, c2.
      * right. exists a, s'. split; [reflexivity|]. simpl.
        rewrite N1, F. apply orb_true_r.
    + right. exists a, s'. split; [reflexivity|]. simpl. now rewrite F.
  - destruct (rmatch r1 prev s c k) as [y|] eqn:E.
    + intros [= ->]. apply IH1 in E as [(N1 & H)|(a & s' & -> & F)].
      * left. now rewrite N1.
      * right. exists a, s'. split; [reflexivity|]. simpl. now rewrite F.
    + intros H. apply IH2 in H as [(N2 & H)|(a & s' & -> & F)].
      * left. rewrite N2. now rewrite orb_true_r.
      * right. exists a, s'. split; [reflexivity|]. simpl.
        rewrite F. apply orb_true_r.
  - intros H. apply (rep_loop_first _ r1) in H as [[Hlo H]|H].
    + left. split; [apply Nat.eqb_eq; lia|]. now exists prev, c.
    + right. exact H.
    + intros prev0 s0 c0 k0 x0 H0.
      apply IH1 in H0 as [(_ & H0)|H0]; [now left|now right].
  - intros H. apply IH1 in H as [(N1 & prev1 & c1 & H)|H].
    + left. split; [exact N1|]. now exists prev1, ((n, firstn (length s - length s) s) :: c1).
    + right. exact H.
Qed.
End First.

Lemma match_at_none (r : re) (prev : option ascii) (s : str) :
  nullable r = false ->
  from_option (first r) false (head s) = false ->
  match_at r prev s = None.
Proof.
  intros N F. unfold match_at.
  destruct (rmatch r prev s [] _) as [x|] eqn:E; [|reflexivity].
  apply rmatch_first in E as [(N1 & _)|(a & s' & -> & F1)].
  - congruence.
  - simpl in F. congruence.
Qed.

(** A pattern that cannot begin with a blank, nor match the empty text,
    has no match in a text of blanks. *)
Lemma scan_blank (r : re) (doc : str) :
  nullable r = false ->
  (forall a, is_space a = true -> first r a = false) ->
  forallb is_space doc = true ->
  forall prev off, scan r prev doc off 0 = [].
Proof.
  intros N F. induction doc as [|a doc IH]; simpl; intros Hdoc prev off.
  - now rewrite match_at_none.
  - apply andb_prop in Hdoc as [Ha Hdoc].
    rewrite match_at_none; [now apply IH|exact N|]. simpl. now apply F.
Qed.

Lemma metrics_blank (doc : str) :
  forallb is_space doc = true -> _extract_metrics doc = [].
Proof.
  intros H. unfold _extract_metrics, findall1, findall_snd, finditer.
  rewrite !(scan_blank _ doc); try assumption; try reflexivity;
    intros [[] [] [] [] [] [] [] []]; vm_compute; congruence.
Qed.

(** C6: for a document text that is empty or consists of blanks the
    analysis has no sentence in any list and no metric, and the report is
    the three heading lines followed by the summary with the counts 0, 0
    and 0, with no section for any category and without the
    recommendation line. *)
Theorem blank_document_report (now doc ttl : str) :
  forallb is_space doc = true ->
  analysis_of now doc ttl = mkAnalysis ttl now [] [] [] [] [] [] /\
  analyze_compliance_requirements now doc ttl =
    L "**Policy Compliance Analysis Report**
Document: " ++ (if nonempty ttl then ttl else L "Untitled Document") ++ L "
Analysis Date: " ++ now ++ L "

**📋 COMPLIANCE SUMMARY:**
- 0 mandatory requirements identified
- 0 critical deadlines found
- 0 penalty provisions noted
".
Proof.
  intros H.
  assert (E : analysis_of now doc ttl = mkAnalysis ttl now [] [] [] [] [] []).
  { unfold analysis_of. rewrite (sentences_blank doc H), (metrics_blank doc H).
    reflexivity. }
  split; [exact E|].
  unfold analyze_compliance_requirements. rewrite E.
  unfold _format_compliance_analysis. cbn -[L NL "++"].
  rewrite !app_nil_r, <- !app_assoc. reflexivity.
Qed.

Lemma blank_document_report_witness :
  analysis_of (L "2024-01-01 00:00:00") (L "  ") (L "Empty Doc")
    = mkAnalysis (L "Empty Doc") (L "2024-01-01 00:00:00") [] [] [] [] [] [] /\
  analyze_compliance_requirements (L "2024-01-01 00:00:00") (L "  ") (L "Empty Doc") =
    L "**Policy Compliance Analysis Report**
Document: " ++ L "Empty Doc" ++ L "
Analysis Date: " ++ L "2024-01-01 00:00:00" ++ L "

**📋 COMPLIANCE SUMMARY:**
- 0 mandatory requirements identified
- 0 critical deadlines found
- 0 penalty provisions noted
".
Proof.
  apply (blank_document_report (L "2024-01-01 00:00:00") (L "  ") (L "Empty Doc")).
  reflexivity.
Defined.

(** ** The report and the clock *)

Lemma format_split (a : Analysis) :
  _format_compliance_analysis a =
  (L "**Policy Compliance Analysis Report**
Document: " ++ (if nonempty (document_title a) then document_title a
                else L "Untitled Document") ++ L "
Analysis Date: ") ++ analysis_date a ++ L "

" ++ report_sections a.
Proof.
  unfold _format_compliance_analysis, report_sections.
  cbv zeta. rewrite <- !app_assoc. reflexivity.
Qed.

(** The sections do not depend on the clock reading. *)
Lemma report_sections_clock (now1 now2 doc ttl : str) :
  report_sections (analysis_of now1 doc ttl) = report_sections (analysis_of now2 doc ttl).
Proof.
  unfold report_sections.
  destruct (analysis_fields now1 doc ttl) as (_ & _ & -> & -> & -> & -> & -> & ->).
  destruct (analysis_fields now2 doc ttl) as (_ & _ & -> & -> & -> & -> & -> & ->).
  reflexivity.
Qed.

(** C8: for a given document text and title there is one text [post]
    such that, whatever the clock reads, the report is the heading up to
    "Analysis Date: ", then the clock reading, then [post]: two calls give
    reports that differ in the analysis date at most. *)
Theorem report_deterministic_up_to_timestamp (doc ttl : str) :
  exists post, forall now,
    analyze_compliance_requirements now doc ttl =
    (L "**Policy Compliance Analysis Report**
Document: " ++ (if nonempty ttl then ttl else L "Untitled Document") ++ L "
Analysis Date: ") ++ now ++ post.
Proof.
  exists (L "

" ++ report_sections (analysis_of [] doc ttl)).
  intros now. unfold analyze_compliance_requirements.
  rewrite format_split, (report_sections_clock now [] doc ttl).
  destruct (analysis_fields now doc ttl) as (-> & -> & _).
  reflexivity.
Qed.

(** ** Truncated sections *)

(** The section of the mandatory requirements tells how many items it
    left out. *)
Lemma mandatory_section_more (reqs : list str) :
  5 < length reqs ->
  exists shown k,
    5 + k = length reqs /\
    mandatory_section reqs = shown ++ L "... and " ++ str_of_nat k ++ L " more" ++ NL ++ NL.
Proof.
  intros H. unfold mandatory_section.
  destruct reqs as [|r reqs]; [simpl in H; lia|].
  set (l := r :: reqs) in *. cbv zeta. cbn [nonnil].
  destruct (Nat.ltb_spec 5 (length l)) as [_|Hle]; [|lia].
  exists ((L "**🔴 MANDATORY REQUIREMENTS (" ++ str_of_nat (length l) ++ L "):**" ++ NL)
          ++ numbered 1 (map (clip 200) (firstn 5 l))), (length l - 5).
  split; [lia|]. now rewrite <- !app_assoc.
Qed.

(** C2, as the code has it: with four prohibited actions, one more than
    the three that are shown, the report lists three and goes on to the
    summary; no line "... and 1 more" follows them.  Only the section
    of the mandatory requirements has such a line. *)
Theorem prohibited_section_has_no_more_line :
  let doc := L "Dumping is banned. Fraud is banned. Theft is banned. Bribery is banned." in
  let now := L "2024-01-01 00:00:00" in
  length (prohibited_actions (analysis_of now doc (L "Rules"))) = 4 /\
  analyze_compliance_requirements now doc (L "Rules") =
    L "**Policy Compliance Analysis Report**
Document: Rules
Analysis Date: 2024-01-01 00:00:00

**🚫 PROHIBITED ACTIONS (4):**
1. Dumping is banned
2. Fraud is banned
3. Theft is banned

**📋 COMPLIANCE SUMMARY:**
- 0 mandatory requirements identified
- 0 critical deadlines found
- 0 penalty provisions noted
".
Proof. vm_compute. split; reflexivity. Qed.

(** ** The comparator *)

(** The keyword set of a document: the words longer than four characters
    of its mandatory sentences. *)
Lemma keyword_set_analyze (doc : str) :
  keyword_set (_analyze_for_comparison doc) =
  list_to_set (fold_left (fun acc sentence => acc ++ sentence_keywords sentence)
                 (_split_into_sentences doc) []).
Proof. unfold keyword_set, _analyze_for_comparison. simpl. apply list_to_set_elements_L. Qed.

Lemma complexity_score_analyze (doc : str) :
  complexity_score (_analyze_for_comparison doc) =
  length (_split_into_sentences doc) + size (keyword_set (_analyze_for_comparison doc)) * 2.
Proof. rewrite keyword_set_analyze. reflexivity. Qed.

(** C7: exchanging the two documents leaves the set of common keywords
    as it is and exchanges the two sets of unique keywords; the report
    ends with the recommendation line that names the first policy when
    its complexity score is the greater, the second policy when the
    second score is the greater, and has no such line when the scores are
    equal. *)
Theorem compare_policies_symmetric (today text_a title_a text_b title_b : str) :
  let a := _analyze_for_comparison text_a in
  let b := _analyze_for_comparison text_b in
  common_reqs a b = common_reqs b a /\
  unique_to_1 a b = unique_to_2 b a /\
  unique_to_2 a b = unique_to_1 b a /\
  compare_policies today text_a title_a text_b title_b =
    comparison_head today title_a title_b a b ++
    match complexity_score a ?= complexity_score b with
    | Gt => recommendation_line title_a
    | Lt => recommendation_line title_b
    | Eq => []
    end.
Proof.
  intros a b. unfold common_reqs, unique_to_1, unique_to_2.
  split; [apply (comm_L (∩))|]. split; [reflexivity|]. split; [reflexivity|].
  unfold compare_policies. fold a b.
  destruct (Nat.compare_spec (complexity_score a) (complexity_score b)) as [E|E|E].
  - rewrite E, Nat.ltb_irrefl. now rewrite app_nil_r.
  - destruct (Nat.ltb_spec (complexity_score b) (complexity_score a)); [lia|].
    destruct (Nat.ltb_spec (complexity_score a) (complexity_score b)); [reflexivity|lia].
  - destruct (Nat.ltb_spec (complexity_score b) (complexity_score a)); [reflexivity|lia].
Qed.

(** ** The matcher finds matches *)

Lemma firstn_consumed (w s' : str) :
  firstn (length (w ++ s') - length s') (w ++ s') = w.
Proof.
  rewrite length_app, Nat.add_sub.
  rewrite firstn_app, Nat.sub_diag, firstn_all. simpl. apply app_nil_r.
Qed.

Section Sound.
Context {X : Type}.
Implicit Type k : option ascii -> str -> caps -> option X.

Lemma rep_loop_sound body (r : re) lo hi k :
  sound_for r body ->
  forall fuel cnt prev s c x,
  rep_loop body lo hi k fuel cnt prev s c = Some x ->
  exists w prev' s' c',
    s = w ++ s' /\
    Matches (Rep r (lo - cnt) (option_map (fun h => h - cnt) hi)) w c c' /\
    k prev' s' c' = Some x.
Proof.
  intros Hbody fuel.
  induction fuel as [|fuel IH]; intros cnt prev s c x.
  - simpl. destruct (Nat.leb_spec lo cnt) as [Hle|]; [|easy].
    intros H. exists [], prev, s, c. split; [reflexivity|]. split; [|exact H].
    replace (lo - cnt) with 0 by lia. constructor.
  - assert (Hstop : (if lo <=? cnt then k prev s c else None) = Some x ->
              exists w prev' s' c',
                s = w ++ s' /\
                Matches (Rep r (lo - cnt) (option_map (fun h => h - cnt) hi)) w c c' /\
                k prev' s' c' = Some x).
    { destruct (Nat.leb_spec lo cnt) as [Hle|]; [|easy].
      intros H. exists [], prev, s, c. split; [reflexivity|]. split; [|exact H].
      replace (lo - cnt) with 0 by lia. constructor. }
    simpl. destruct (below cnt hi) eqn:Hb; [|exact Hstop].
    destruct (body prev s c _) as [y|] eqn:E; [|exact Hstop].
    intros [= ->].
    apply Hbody in E as (w1 & prev1 & s1 & c1 & -> & M1 & E).
    destruct (Nat.ltb_spec (length s1) (length (w1 ++ s1))) as [Hlt|]; [|easy].
    apply IH in E as (w2 & prev2 & s2 & c2 & -> & M2 & E).
    exists (w1 ++ w2), prev2, s2, c2.
    split; [now rewrite app_assoc|]. split; [|exact E].
    apply M_rep_more with (c1 := c1).
    + destruct hi as [h|]; [|reflexivity]. simpl in *.
      apply Nat.ltb_lt. apply Nat.ltb_lt in Hb. lia.
    + intros ->. simpl in Hlt. lia.
    + exact M1.
    + replace (pred (lo - cnt)) with (lo - S cnt) by lia.
      replace (option_map pred (option_map (fun h => h - cnt) hi))
        with (option_map (fun h => h - S cnt) hi); [exact M2|].
      destruct hi as [h|]; [|reflexivity]. simpl. f_equal. lia.
Qed.

Lemma rmatch_sound (r : re) : sound_for (X := X) r (rmatch r).
Proof.
  induction r as [|p| |r1 IH1 r2 IH2|r1 IH1 r2 IH2|r1 IH1 lo hi|n r1 IH1];
    intros prev s c k x; simpl.
  - intros H. exists [], prev, s, c. repeat split; [constructor|exact H].
  - destruct s as [|a s']; [easy|]. destruct (p a) eqn:E; [|easy].
    intros H. exists [a], (Some a), s', c. repeat split; [now constructor|exact H].
  - destruct (at_boundary prev s); [|easy].
    intros H. exists [], prev, s, c. repeat split; [constructor|exact H].
  - intros H. apply IH1 in H as (w1 & prev1 & s1 & c1 & -> & M1 & H).
    apply IH2 in H as (w2 & prev2 & s2 & c2 & -> & M2 & H).
    exists (w1 ++ w2), prev2, s2, c2.
    split; [now rewrite app_assoc|]. split; [|exact H]. now apply M_cat with (c1 := c1).
  - destruct (rmatch r1 prev s c k) as [y|] eqn:E.
    + intros [= ->]. apply IH1 in E as (w & prev' & s' & c' & -> & M & H).
      exists w, prev', s', c'. repeat split; [now apply M_alt_l|exact H].
    + intros H. apply IH2 in H as (w & prev' & s' & c' & -> & M & H).
      exists w, prev', s', c'. repeat split; [now apply M_alt_r|exact H].
  - intros H. apply (rep_loop_sound _ r1 lo hi k IH1) in H
      as (w & prev' & s' & c' & -> & M & H).
    exists w, prev', s', c'. repeat split; [|exact H].
    rewrite Nat.sub_0_r in M.
    replace (option_map (fun h => h - 0) hi) with hi in M; [exact M|].
    destruct hi as [h|]; [|reflexivity]. simpl. f_equal. lia.
  - intros H. apply IH1 in H as (w & prev' & s' & c' & -> & M & H).
    rewrite firstn_consumed in H.
    exists w, prev', s', ((n, w) :: c'). repeat split; [now constructor|exact H].
Qed.
End Sound.

Lemma match_at_sound (r : re) (prev : option ascii) (s s' : str) (c : caps) :
  match_at r prev s = Some (s', c) ->
  exists w, s = w ++ s' /\ Matches r w [] c.
Proof.
  unfold match_at. intros H.
  apply rmatch_sound in H as (w & prev' & s1 & c1 & -> & M & [= <- <-]).
  now exists w.
Qed.

(** Every match that [scan] reports is a match of the pattern. *)
Lemma scan_sound (r : re) (s : str) : forall prev off skip m,
  In m (scan r prev s off skip) -> Matches r (m_text m) [] (m_groups m).
Proof.
  induction s as [|a s IH]; intros prev off skip m; cbn [scan].
  - destruct skip; [|easy].
    destruct (match_at r prev []) as [[s' c]|] eqn:E; [|easy].
    intros [<-|[]]. cbn [m_text m_groups].
    apply match_at_sound in E as (w & Hw & M).
    symmetry in Hw. apply app_eq_nil in Hw as [-> _]. exact M.
  - destruct skip as [|skip]; [|apply IH].
    destruct (match_at r prev (a :: s)) as [[s' c]|] eqn:E; [|apply IH].
    intros [<-|H]; [|now apply IH in H]. cbn [m_text m_groups].
    apply match_at_sound in E as (w & Hw & M).
    rewrite Hw, firstn_consumed. exact M.
Qed.

Lemma in_splits (w1 w2 : str) : In (w1, w2) (splits (w1 ++ w2)).
Proof.
  induction w1 as [|a w1 IH]; simpl.
  - destruct w2; now left.
  - right. apply in_map_iff. now exists (w1, w2).
Qed.

Lemma rep_parses_mono body : forall fuel fuel' lo hi w c x,
  fuel <= fuel' ->
  In x (rep_parses body lo hi fuel w c) -> In x (rep_parses body lo hi fuel' w c).
Proof.
  induction fuel as [|fuel IH]; intros fuel' lo hi w c x Hle; simpl.
  - rewrite app_nil_r. intros H. destruct fuel'; simpl; apply in_or_app; now left.
  - destruct fuel' as [|fuel']; [lia|]. simpl.
    rewrite !in_app_iff. intros [H|H]; [now left|right].
    destruct (below 0 hi); [|easy].
    apply in_flat_map in H as ([w1 w2] & Hs & H).
    apply in_flat_map. exists (w1, w2). split; [exact Hs|].
    destruct (nonempty w1); [|easy].
    apply in_flat_map in H as (c1 & Hc1 & H).
    apply in_flat_map. exists c1. split; [exact Hc1|].
    apply (IH fuel'); [lia|exact H].
Qed.

(** [parses] lists the bindings of every match. *)
Lemma Matches_parses (r : re) (w : str) (c c' : caps) :
  Matches r w c c' -> In c' (parses r w c).
Proof.
  induction 1 as [c|p a c Hp|c|r1 r2 w1 w2 c c1 c2 _ IH1 _ IH2
                 |r1 r2 w c c' _ IH|r1 r2 w c c' _ IH|n r w c c' _ IH
                 |r hi c|r lo hi w1 w2 c c1 c2 Hb Hw _ IH1 _ IH2]; simpl.
  - now left.
  - rewrite Hp. now left.
  - now left.
  - apply in_flat_map. exists (w1, w2). split; [apply in_splits|].
    apply in_flat_map. now exists c1.
  - apply in_or_app. now left.
  - apply in_or_app. now right.
  - apply in_map_iff. now exists c'.
  - now left.
  - simpl in IH2.
    assert (Hlen : S (length w2) <= length (w1 ++ w2)).
    { rewrite length_app. destruct w1; [easy|simpl; lia]. }
    destruct (length (w1 ++ w2)) as [|fuel] eqn:El; [lia|].
    cbn [rep_parses]. apply in_or_app. right.
    rewrite Hb. apply in_flat_map. exists (w1, w2).
    split; [apply in_splits|].
    destruct w1 as [|a w1]; [easy|]. cbn [nonempty].
    apply in_flat_map. exists c1. split; [exact IH1|].
    apply (rep_parses_mono _ (length w2)); [lia|exact IH2].
Qed.

(** ** Where the matches of [finditer] lie *)

Lemma spans_from_le (lo lo' : nat) (ms : list Match) :
  lo <= lo' -> spans_from lo' ms -> spans_from lo ms.
Proof. destruct ms as [|m ms]; simpl; [easy|]. intros Hle [H1 H2]. split; [lia|exact H2]. Qed.

Lemma match_at_length (r : re) (prev : option ascii) (s s' : str) (c : caps) :
  match_at r prev s = Some (s', c) ->
  exists w, s = w ++ s' /\ firstn (length s - length s') s = w /\
            length s - length s' = length w.
Proof.
  intros H. apply match_at_sound in H as (w & -> & _). exists w.
  split; [reflexivity|]. split; [apply firstn_consumed|].
  rewrite length_app. lia.
Qed.

Lemma scan_spans (r : re) (s : str) : forall prev off skip,
  spans_from (off + skip) (scan r prev s off skip).
Proof.
  induction s as [|a s IH]; intros prev off skip; cbn [scan].
  - destruct skip; [|exact I].
    destruct (match_at r prev []) as [[s' c]|]; [|exact I].
    simpl. split; [lia|exact I].
  - destruct skip as [|skip].
    + destruct (match_at r prev (a :: s)) as [[s' c]|] eqn:E.
      * destruct (match_at_length _ _ _ _ _ E) as (w & _ & Hw & Hn).
        cbn [spans_from m_start m_text]. split; [lia|].
        rewrite Hw, Hn. apply (spans_from_le _ (S off + (length w - 1))); [lia|apply IH].
      * apply (spans_from_le _ (S off + 0)); [lia|apply IH].
    + replace (off + S skip) with (S off + skip) by lia. apply IH.
Qed.

Lemma scan_occurs (r : re) (s : str) : forall prev off skip m,
  In m (scan r prev s off skip) ->
  exists pre post, s = pre ++ m_text m ++ post /\ off + length pre = m_start m.
Proof.
  induction s as [|a s IH]; intros prev off skip m; cbn [scan].
  - destruct skip; [|easy].
    destruct (match_at r prev []) as [[s' c]|]; [|easy].
    intros [<-|[]]. exists [], []. simpl. split; [reflexivity|lia].
  - assert (Hrec : forall prev' skip', In m (scan r prev' s (S off) skip') ->
              exists pre post, a :: s = pre ++ m_text m ++ post /\
                               off + length pre = m_start m).
    { intros prev' skip' H. apply IH in H as (pre & post & -> & Hlen).
      exists (a :: pre), post. simpl. split; [reflexivity|lia]. }
    destruct skip as [|skip]; [|apply Hrec].
    destruct (match_at r prev (a :: s)) as [[s' c]|] eqn:E; [|apply Hrec].
    intros [<-|H]; [|now apply Hrec in H].
    destruct (match_at_length _ _ _ _ _ E) as (w & Hs & Hw & _).
    cbn [m_text m_start]. rewrite Hw. exists [], s'. simpl. split; [exact Hs|lia].
Qed.

Lemma char_before_cons (prev : option ascii) (a : ascii) (s : str) (j : nat) :
  char_before prev (a :: s) (S j) = char_before (Some a) s j.
Proof. now destruct j. Qed.

(** [scan] passes over no position at which the pattern matches, save
    inside a match that it reports. *)
Lemma scan_complete (r : re) (s : str) : forall prev off skip j,
  skip <= j -> j <= length s ->
  match_at r (char_before prev s j) (skipn j s) <> None ->
  covered (scan r prev s off skip) (off + j).
Proof.
  induction s as [|a s IH]; intros prev off skip j Hskip Hj; cbn [scan].
  - simpl in Hj. assert (j = 0) as -> by lia. assert (skip = 0) as -> by lia.
    simpl. destruct (match_at r prev []) as [[s' c]|]; [|easy].
    intros _. exists (mkMatch off [] c). split; [now left|]. simpl. lia.
  - assert (Hrec : forall skip' j', skip' <= j' -> S j' <= length (a :: s) ->
              match_at r (char_before prev (a :: s) (S j')) (skipn (S j') (a :: s)) <> None ->
              covered (scan r (Some a) s (S off) skip') (off + S j')).
    { intros skip' j' H1 H2 H3. rewrite char_before_cons in H3. simpl in H2, H3.
      replace (off + S j') with (S off + j') by lia. apply IH; [lia|lia|exact H3]. }
    destruct skip as [|skip].
    + destruct (match_at r prev (a :: s)) as [[s' c]|] eqn:E.
      * destruct (match_at_length _ _ _ _ _ E) as (w & _ & Hw & Hn).
        intros Hm. rewrite Hw, Hn.
        destruct (Nat.lt_ge_cases j (Nat.max 1 (length w))) as [Hin|Hout].
        -- exists (mkMatch off w c). split; [now left|]. simpl. lia.
        -- destruct j as [|j']; [lia|].
           destruct (Hrec (length w - 1) j' ltac:(lia) Hj Hm) as (m & Hin & Hr).
           exists m. split; [now right|exact Hr].
      * destruct j as [|j']; [intros H; now elim H|].
        intros Hm. exact (Hrec 0 j' ltac:(lia) Hj Hm).
    + destruct j as [|j']; [lia|].
      intros Hm. exact (Hrec skip j' ltac:(lia) Hj Hm).
Qed.

(** The matches of [finditer]: matches of the pattern, standing in the
    document where they start, from left to right without overlap, and
    leaving out no position with a match outside them. *)
Lemma finditer_matches (r : re) (doc : str) :
  let ms := finditer r doc in
  spans_from 0 ms /\
  (forall m, In m ms -> occurs_at doc m /\ Matches r (m_text m) [] (m_groups m)) /\
  (forall j, j <= length doc ->
     match_at r (char_before None doc j) (skipn j doc) <> None -> covered ms j).
Proof.
  unfold finditer. split; [|split].
  - apply (scan_spans r doc None 0 0).
  - intros m Hm. split; [|now apply scan_sound in Hm].
    apply scan_occurs in Hm as (pre & post & H1 & H2). now exists pre, post.
  - intros j Hj Hm. apply (scan_complete r doc None 0 0 j); [lia|exact Hj|exact Hm].
Qed.

(** The metric patterns see the whole text: an amount with cents is found
    although the sentence split cuts it at its point. *)
Lemma metrics_across_sentences :
  _split_into_sentences (L "Pay $1,000.50 now.") = [L "Pay $1,000"; L "50 now"] /\
  _extract_metrics (L "Pay $1,000.50 now.") = [(L "dollar_amounts", [L "$1,000.50"])].
Proof. vm_compute. split; reflexivity. Qed.

(** When the one match of [r] in the document has the text [w], its
    groups are those of a match of [r] with [w]. *)
Lemma single_match (r : re) (doc w : str) :
  map m_text (finditer r doc) = [w] ->
  exists m, finditer r doc = [m] /\ m_text m = w /\ In (m_groups m) (parses r w []).
Proof.
  intros H. destruct (finditer r doc) as [|m [|m' ms]] eqn:E; try discriminate.
  injection H as H. exists m. split; [reflexivity|]. split; [exact H|].
  rewrite <- H. apply Matches_parses.
  apply (scan_sound r doc None 0 0). unfold finditer in E. rewrite E. now left.
Qed.

(** The three texts of the claim match their patterns in one way each. *)
Lemma parses_percentage :
  parses compliance_patterns.percentage (L "50%") [] = [[(1, L "50")]].
Proof. vm_compute. reflexivity. Qed.

Lemma parses_dollar_amount :
  parses compliance_patterns.dollar_amount (L "$10,000") [] = [[(1, L "10,000")]].
Proof. vm_compute. reflexivity. Qed.

Lemma parses_effective_date :
  parses compliance_patterns.effective_date (L "effective on January 1, 2024") []
  = [[(2, L "January 1, 2024"); (1, L "on ")]].
Proof. vm_compute. reflexivity. Qed.

(** C5: when the one match of the percentage pattern in the document is
    "50%", the one match of the dollar pattern is "$10,000" and the one
    match of the effective-date pattern is "effective on January 1, 2024",
    the metrics are percentages ["50%"], dollar_amounts ["$10,000"] and
    effective_dates ["January 1, 2024"], and they are the [key_metrics] of
    the analysis.  For every pattern, the matches collected from the whole
    document text are matches of the pattern at their places in the text,
    in the order of their places and without overlap, and no position
    outside them has a match. *)
Theorem metrics_of_whole_document (doc : str) :
  map m_text (finditer compliance_patterns.percentage doc) = [L "50%"] ->
  map m_text (finditer compliance_patterns.dollar_amount doc) = [L "$10,000"] ->
  map m_text (finditer compliance_patterns.effective_date doc)
    = [L "effective on January 1, 2024"] ->
  _extract_metrics doc =
    [(L "percentages", [L "50%"]);
     (L "dollar_amounts", [L "$10,000"]);
     (L "effective_dates", [L "January 1, 2024"])] /\
  (forall now ttl, key_metrics (analysis_of now doc ttl) = _extract_metrics doc) /\
  (forall r,
     let ms := finditer r doc in
     spans_from 0 ms /\
     (forall m, In m ms -> occurs_at doc m /\ Matches r (m_text m) [] (m_groups m)) /\
     (forall j, j <= length doc ->
        match_at r (char_before None doc j) (skipn j doc) <> None -> covered ms j)).
Proof.
  intros Hp Hd He.
  split; [|split].
  - apply single_match in Hp as (mp & Ep & _ & Gp).
    apply single_match in Hd as (md & Ed & _ & Gd).
    apply single_match in He as (me & Ee & _ & Ge).
    rewrite parses_percentage in Gp. rewrite parses_dollar_amount in Gd.
    rewrite parses_effective_date in Ge.
    destruct Gp as [Gp|[]], Gd as [Gd|[]], Ge as [Ge|[]].
    unfold _extract_metrics, findall1, findall_snd, group_text.
    rewrite Ep, Ed, Ee. cbn [map]. rewrite <- Gp, <- Gd, <- Ge. reflexivity.
  - intros now ttl. now destruct (analysis_fields now doc ttl) as (_ & _ & _ & _ & _ & _ & _ & ->).
  - intros r. apply finditer_matches.
Qed.

Lemma metrics_of_whole_document_witness :
  _extract_metrics sample_document =
    [(L "percentages", [L "50%"]);
     (L "dollar_amounts", [L "$10,000"]);
     (L "effective_dates", [L "January 1, 2024"])] /\
  (forall now ttl,
     key_metrics (analysis_of now sample_document ttl) = _extract_metrics sample_document) /\
  (forall r,
     let ms := finditer r sample_document in
     spans_from 0 ms /\
     (forall m, In m ms ->
        occurs_at sample_document m /\ Matches r (m_text m) [] (m_groups m)) /\
     (forall j, j <= length sample_document ->
        match_at r (char_before None sample_document j) (skipn j sample_document) <> None ->
        covered ms j)).
Proof.
  apply (metrics_of_whole_document sample_document); vm_compute; reflexivity.
Defined.

(** * Further properties of the analyzer *)

(** ** Spans *)

Lemma startswith_spec (p s : str) :
  startswith p s = true <-> exists rest, s = p ++ rest.
Proof.
  revert s. induction p as [|a p IH]; intros s; simpl.
  - split; [intros _; now exists s|easy].
  - destruct s as [|b s]; [split; [easy|intros [rest H]; discriminate]|].
    rewrite andb_true_iff, Ascii.eqb_eq, IH. split.
    + intros [-> [rest ->]]. now exists rest.
    + intros [rest [= -> ->]]. split; [reflexivity|now exists rest].
Qed.

Lemma contains_spec (s p : str) :
  contains s p = true <-> exists pre post, s = pre ++ p ++ post.
Proof.
  induction s as [|c s IH]; simpl; rewrite orb_true_iff, startswith_spec.
  - split.
    + intros [[rest H]|H]; [|discriminate]. now exists [], rest.
    + intros (pre & post & H). left. destruct pre; [|discriminate]. now exists post.
  - rewrite IH. split.
    + intros [[rest H]|(pre & post & ->)]; [now exists [], rest|].
      now exists (c :: pre), post.
    + intros ([|c' pre] & post & H).
      * left. now exists post.
      * right. injection H as -> ->. now exists pre, post.
Qed.

(** [strip] cuts a span out of its argument. *)
Lemma strip_span (s : str) : exists pre post, s = pre ++ strip s ++ post.
Proof.
  unfold strip, rstrip.
  destruct (lstrip_suffix s) as [p Hp].
  destruct (lstrip_suffix (rev (lstrip s))) as [q Hq].
  exists p, (rev q).
  rewrite <- rev_app_distr, <- Hq, rev_involutive. exact Hp.
Qed.

Lemma re_split_span (doc : str) : forall acc b p,
  In p (re_split acc b doc) -> exists pre post, rev acc ++ doc = pre ++ p ++ post.
Proof.
  induction doc as [|c doc IH]; intros acc b p; simpl.
  - intros [<-|[]]. exists [], []. now rewrite !app_nil_r.
  - assert (Hrun : In p (re_split [] true doc) ->
              exists pre post, rev acc ++ c :: doc = pre ++ p ++ post).
    { intros H. apply IH in H as (pre & post & H). simpl in H.
      exists (rev acc ++ c :: pre), post. rewrite H, <- app_assoc. reflexivity. }
    destruct (is_terminator c).
    + destruct b; [exact Hrun|]. intros [<-|H]; [|now apply Hrun].
      now exists [], (c :: doc).
    + intros H. apply IH in H as (pre & post & H). exists pre, post.
      rewrite <- H. simpl. now rewrite <- app_assoc.
Qed.

Lemma re_split_terminators (doc : str) : forall acc b p,
  forallb (fun c => negb (is_terminator c)) acc = true ->
  In p (re_split acc b doc) ->
  forallb (fun c => negb (is_terminator c)) p = true.
Proof.
  induction doc as [|c doc IH]; intros acc b p Hacc; simpl.
  - intros [<-|[]]. rewrite forallb_forall in *. intros x Hx. apply Hacc.
    now apply in_rev.
  - destruct (is_terminator c) eqn:E.
    + destruct b; [now apply IH|]. intros [<-|H]; [|now apply IH in H].
      rewrite forallb_forall in *. intros x Hx. apply Hacc. now apply in_rev.
    + apply IH. simpl. now rewrite E.
Qed.

Lemma forallb_span (f : ascii -> bool) (pre s post : str) :
  forallb f (pre ++ s ++ post) = true -> forallb f s = true.
Proof. rewrite !forallb_app, !andb_true_iff. tauto. Qed.

(** A sentence is a span of the document. *)
Lemma sentence_span (doc s : str) :
  In s (_split_into_sentences doc) -> exists pre post, doc = pre ++ s ++ post.
Proof.
  unfold _split_into_sentences. rewrite in_map_iff.
  intros (x & <- & Hx). apply filter_In in Hx as [Hx _].
  apply re_split_span in Hx as (pre & post & Hx). simpl in Hx.
  destruct (strip_span x) as (p1 & p2 & Hs).
  exists (pre ++ p1), (p2 ++ post). rewrite Hx. rewrite Hs at 1.
  now rewrite <- !app_assoc.
Qed.

Lemma sentence_no_terminator (doc s : str) :
  In s (_split_into_sentences doc) ->
  forallb (fun c => negb (is_terminator c)) s = true.
Proof.
  unfold _split_into_sentences. rewrite in_map_iff.
  intros (x & <- & Hx). apply filter_In in Hx as [Hx _].
  apply re_split_terminators in Hx; [|reflexivity].
  destruct (strip_span x) as (p1 & p2 & Hs). rewrite Hs in Hx.
  now apply forallb_span in Hx.
Qed.

Lemma head_rev_last (s : str) : head (rev s) = last s.
Proof.
  induction s as [|a s IH]; [reflexivity|].
  destruct s as [|b s]; [reflexivity|].
  change (last (a :: b :: s)) with (last (b :: s)). rewrite <- IH.
  change (rev (a :: b :: s)) with (rev (b :: s) ++ [a]).
  destruct (rev (b :: s)) as [|x l] eqn:E; [|reflexivity].
  apply (f_equal (@length ascii)) in E. rewrite length_rev in E. discriminate.
Qed.

(** X1: a sentence of the split is not empty, neither begins nor ends
    with a whitespace character, contains none of the characters [.!?],
    and stands in the document as it is. *)
Theorem sentences_are_clean_spans (doc s : str) :
  In s (_split_into_sentences doc) ->
  s <> [] /\
  from_option is_space false (head s) = false /\
  from_option is_space false (last s) = false /\
  forallb (fun c => negb (is_terminator c)) s = true /\
  contains doc s = true.
Proof.
  intros H. destruct (sentence_stripped doc s H) as [Hs Hne].
  destruct (strip_clean s) as [H1 H2]. rewrite Hs in H1, H2.
  rewrite head_rev_last in H2.
  repeat split; try assumption.
  - now apply sentence_no_terminator in H.
  - apply contains_spec. now apply sentence_span.
Qed.

Lemma sentences_are_clean_spans_witness :
  let doc := L " Pay the fee!  Then wait. " in
  let s := L "Then wait" in
  s <> [] /\
  from_option is_space false (head s) = false /\
  from_option is_space false (last s) = false /\
  forallb (fun c => negb (is_terminator c)) s = true /\
  contains doc s = true.
Proof.
  apply (sentences_are_clean_spans (L " Pay the fee!  Then wait. ") (L "Then wait")).
  vm_compute. right. left. reflexivity.
Defined.

(** ** Splitting, again and after joining *)

Lemma re_split_unterminated (doc : str) : forall acc b,
  forallb (fun c => negb (is_terminator c)) doc = true ->
  re_split acc b doc = [rev acc ++ doc].
Proof.
  induction doc as [|a doc IH]; intros acc b; simpl.
  - now rewrite app_nil_r.
  - intros [Ha Hdoc]%andb_prop. apply negb_true_iff in Ha. rewrite Ha.
    rewrite (IH _ _ Hdoc). simpl. now rewrite <- app_assoc.
Qed.

Lemma split_unterminated (doc : str) :
  forallb (fun c => negb (is_terminator c)) doc = true ->
  _split_into_sentences doc = if nonempty (strip doc) then [strip doc] else [].
Proof.
  intros H. unfold _split_into_sentences.
  rewrite (re_split_unterminated doc [] false H). simpl.
  now destruct (nonempty (strip doc)).
Qed.

(** X2: a text without any of the characters [.!?] is one sentence, the
    text stripped, unless nothing but whitespace is in it; then there is
    no sentence. *)
Theorem unterminated_text_is_one_sentence (doc : str) :
  forallb (fun c => negb (is_terminator c)) doc = true ->
  (strip doc <> [] -> _split_into_sentences doc = [strip doc]) /\
  (strip doc = [] -> _split_into_sentences doc = []).
Proof.
  intros H. rewrite (split_unterminated doc H).
  split; intros Hs; destruct (strip doc); simpl; congruence.
Qed.

Lemma unterminated_text_is_one_sentence_witness :
  (strip (L "  no final point ") <> [] ->
   _split_into_sentences (L "  no final point ") = [strip (L "  no final point ")]) /\
  (strip (L "  no final point ") = [] -> _split_into_sentences (L "  no final point ") = []).
Proof.
  apply (unterminated_text_is_one_sentence (L "  no final point ")). reflexivity.
Defined.

(** X3: splitting a sentence of a document again gives that sentence
    alone. *)
Theorem sentence_splits_to_itself (doc s : str) :
  In s (_split_into_sentences doc) -> _split_into_sentences s = [s].
Proof.
  intros H. destruct (sentence_stripped doc s H) as [Hs Hne].
  rewrite (split_unterminated s (sentence_no_terminator doc s H)), Hs.
  now destruct s.
Qed.

Lemma sentence_splits_to_itself_witness :
  _split_into_sentences (L "Then wait") = [L "Then wait"].
Proof.
  apply (sentence_splits_to_itself (L " Pay the fee!  Then wait. ") (L "Then wait")).
  vm_compute. right. left. reflexivity.
Defined.

Lemma filter_re_split_run (d : str) :
  List.filter (fun s => nonempty (strip s)) (re_split [] true d) =
  List.filter (fun s => nonempty (strip s)) (re_split [] false d).
Proof.
  destruct d as [|c d]; [reflexivity|]. simpl.
  destruct (is_terminator c); reflexivity.
Qed.

Lemma filter_re_split_app (d1 : str) : forall acc b t d2,
  is_terminator t = true -> (b = true -> acc = []) ->
  List.filter (fun s => nonempty (strip s)) (re_split acc b (d1 ++ t :: d2)) =
  List.filter (fun s => nonempty (strip s)) (re_split acc b d1)
  ++ List.filter (fun s => nonempty (strip s)) (re_split [] false d2).
Proof.
  induction d1 as [|c d1 IH]; intros acc b t d2 Ht Hb; simpl.
  - rewrite Ht. destruct b.
    + rewrite (Hb eq_refl). simpl. apply filter_re_split_run.
    + simpl. rewrite filter_re_split_run.
      now destruct (nonempty (strip (rev acc))).
  - destruct (is_terminator c).
    + destruct b; [now apply IH|]. simpl.
      rewrite (IH [] true t d2 Ht (fun _ => eq_refl)).
      now destruct (nonempty (strip (rev acc))).
    + apply IH; [exact Ht|discriminate].
Qed.

Lemma sentences_join (d1 d2 : str) (t : ascii) :
  is_terminator t = true ->
  _split_into_sentences (d1 ++ t :: d2) =
  _split_into_sentences d1 ++ _split_into_sentences d2.
Proof.
  intros Ht. unfold _split_into_sentences.
  rewrite (filter_re_split_app d1 [] false t d2 Ht); [|discriminate].
  apply map_app.
Qed.

Lemma omap_app_list {A B} (f : A -> option B) (l1 l2 : list A) :
  omap f (l1 ++ l2) = omap f l1 ++ omap f l2.
Proof.
  induction l1 as [|x l1 IH]; [reflexivity|]. cbn.
  destruct (f x); cbn; now rewrite IH.
Qed.

(** X4: when two texts are joined by one of the characters [.!?], the
    sentences of the whole are those of the first text followed by those
    of the second, and so are the mandatory requirements, the optional
    provisions, the prohibited actions, the deadlines and the penalties
    of the analysis. *)
Theorem analysis_of_joined_texts (d1 d2 : str) (t : ascii) :
  is_terminator t = true ->
  _split_into_sentences (d1 ++ t :: d2) =
    _split_into_sentences d1 ++ _split_into_sentences d2 /\
  forall now ttl,
    let a := analysis_of now (d1 ++ t :: d2) ttl in
    let a1 := analysis_of now d1 ttl in
    let a2 := analysis_of now d2 ttl in
    mandatory_requirements a = mandatory_requirements a1 ++ mandatory_requirements a2 /\
    optional_provisions a = optional_provisions a1 ++ optional_provisions a2 /\
    prohibited_actions a = prohibited_actions a1 ++ prohibited_actions a2 /\
    deadlines a = deadlines a1 ++ deadlines a2 /\
    penalties a = penalties a1 ++ penalties a2.
Proof.
  intros Ht. split; [now apply sentences_join|].
  intros now ttl a a1 a2.
  destruct (analysis_fields now (d1 ++ t :: d2) ttl) as (_ & _ & Hm & Ho & Hp & Hd & Hn & _).
  destruct (analysis_fields now d1 ttl) as (_ & _ & Hm1 & Ho1 & Hp1 & Hd1 & Hn1 & _).
  destruct (analysis_fields now d2 ttl) as (_ & _ & Hm2 & Ho2 & Hp2 & Hd2 & Hn2 & _).
  fold a in Hm, Ho, Hp, Hd, Hn. fold a1 in Hm1, Ho1, Hp1, Hd1, Hn1.
  fold a2 in Hm2, Ho2, Hp2, Hd2, Hn2.
  rewrite Hm, Ho, Hp, Hd, Hn, Hm1, Ho1, Hp1, Hd1, Hn1, Hm2, Ho2, Hp2, Hd2, Hn2.
  rewrite (sentences_join d1 d2 t Ht).
  rewrite !List.filter_app, !map_app, omap_app_list. repeat split.
Qed.

Lemma analysis_of_joined_texts_witness :
  _split_into_sentences (L "Pay now" ++ "!"%char :: L "Firms must report") =
    _split_into_sentences (L "Pay now") ++ _split_into_sentences (L "Firms must report") /\
  forall now ttl,
    let a := analysis_of now (L "Pay now" ++ "!"%char :: L "Firms must report") ttl in
    let a1 := analysis_of now (L "Pay now") ttl in
    let a2 := analysis_of now (L "Firms must report") ttl in
    mandatory_requirements a = mandatory_requirements a1 ++ mandatory_requirements a2 /\
    optional_provisions a = optional_provisions a1 ++ optional_provisions a2 /\
    prohibited_actions a = prohibited_actions a1 ++ prohibited_actions a2 /\
    deadlines a = deadlines a1 ++ deadlines a2 /\
    penalties a = penalties a1 ++ penalties a2.
Proof.
  apply (analysis_of_joined_texts (L "Pay now") (L "Firms must report") "!"%char).
  reflexivity.
Defined.

(** ** The lists keep the order and the number of the sentences *)

Lemma sentences_fixed (doc : str) :
  Forall (fun s => strip s = s) (_split_into_sentences doc).
Proof.
  apply List.Forall_forall. intros s Hs. now destruct (sentence_stripped doc s Hs).
Qed.

Lemma map_filter_fixed (f : str -> str) (g : str -> bool) (l : list str) :
  Forall (fun s => f s = s) l -> map f (List.filter g l) = List.filter g l.
Proof.
  induction 1 as [|x l Hx _ IH]; [reflexivity|]. simpl.
  destruct (g x); simpl; now rewrite ?Hx, IH.
Qed.

Lemma sublist_filter_list {A} (g : A -> bool) (l : list A) : sublist (List.filter g l) l.
Proof.
  induction l as [|x l IH]; simpl; [constructor|].
  destruct (g x); now constructor.
Qed.

Lemma sublist_deadline_texts (l : list str) :
  Forall (fun s => strip s = s) l -> sublist (map text (omap deadline_of l)) l.
Proof.
  induction 1 as [|x l Hx _ IH]; cbn; [constructor|].
  unfold deadline_of at 1.
  destruct (re_search compliance_patterns.deadline (lower x)); cbn.
  - rewrite Hx. now constructor.
  - now constructor.
Qed.

Lemma class_counts (l : list str) :
  length (List.filter (in_class mandatory) l)
  + length (List.filter (in_class optional) l)
  + length (List.filter (in_class prohibited) l) <= length l.
Proof.
  induction l as [|x l IH]; simpl; [lia|].
  rewrite (in_class_mandatory x), (in_class_optional x), (in_class_prohibited x).
  destruct (any_keyword compliance_keywords.mandatory (lower x)),
    (any_keyword compliance_keywords.optional (lower x)),
    (any_keyword compliance_keywords.prohibited (lower x)); simpl; lia.
Qed.

(** X5: each list of the analysis holds sentences of the document in the
    order of the document, every occurrence of a sentence once at most;
    an occurrence is counted in one primary list at most, so the three
    primary lists together are no longer than the list of sentences. *)
Theorem analysis_lists_follow_the_document (now doc ttl : str) :
  let a := analysis_of now doc ttl in
  let ss := _split_into_sentences doc in
  sublist (mandatory_requirements a) ss /\
  sublist (optional_provisions a) ss /\
  sublist (prohibited_actions a) ss /\
  sublist (map text (deadlines a)) ss /\
  sublist (penalties a) ss /\
  length (mandatory_requirements a) + length (optional_provisions a)
  + length (prohibited_actions a) <= length ss.
Proof.
  intros a ss.
  destruct (analysis_fields now doc ttl) as (_ & _ & Hm & Ho & Hp & Hd & Hn & _).
  fold a ss in Hm, Ho, Hp, Hd, Hn. rewrite Hm, Ho, Hp, Hd, Hn.
  pose proof (sentences_fixed doc) as Hfix. fold ss in Hfix.
  rewrite !(map_filter_fixed strip _ ss Hfix).
  repeat split; try apply sublist_filter_list.
  - now apply sublist_deadline_texts.
  - apply class_counts.
Qed.

(** ** What the shape of a pattern tells about its matches *)

Lemma in_all_ascii (a : ascii) : In a all_ascii.
Proof.
  unfold all_ascii. apply in_map_iff. exists (nat_of_ascii a).
  split; [apply ascii_nat_embedding|].
  apply in_seq. pose proof (nat_ascii_bounded a). lia.
Qed.

Lemma cls_sub_spec (q p : ascii -> bool) (a : ascii) :
  cls_sub q p = true -> q a = true -> p a = true.
Proof.
  unfold cls_sub. rewrite forallb_forall. intros H Hq.
  specialize (H a (in_all_ascii a)). now rewrite Hq in H.
Qed.


Lemma Matches_needs (p : ascii -> bool) (r : re) (w : str) (c c' : caps) :
  Matches r w c c' -> needs p r = true -> existsb p w = true.
Proof.
  induction 1 as [c|q a c Hq|c|r1 r2 w1 w2 c c1 c2 _ IH1 _ IH2
                 |r1 r2 w c c' _ IH|r1 r2 w c c' _ IH|n r w c c' _ IH
                 |r hi c|r lo hi w1 w2 c c1 c2 Hb Hw _ IH1 _ IH2];
    cbn [needs existsb]; try discriminate.
  - intros H. now rewrite (cls_sub_spec q p a H Hq).
  - intros [H|H]%orb_prop; rewrite existsb_app, orb_true_iff; [left|right]; auto.
  - intros [H1 H2]%andb_prop. auto.
  - intros [H1 H2]%andb_prop. auto.
  - exact IH.
  - intros [_ H]%andb_prop. rewrite existsb_app, orb_true_iff. left. auto.
Qed.



Lemma in_rep_words (ws : list str) (h : nat) : In [] (rep_words ws h).
Proof. destruct h; now left. Qed.

Lemma Matches_words (r : re) (w : str) (c c' : caps) :
  Matches r w c c' -> forall ws, words r = Some ws -> In w ws.
Proof.
  induction 1 as [c|q a c Hq|c|r1 r2 w1 w2 c c1 c2 _ IH1 _ IH2
                 |r1 r2 w c c' _ IH|r1 r2 w c c' _ IH|n r w c c' _ IH
                 |r hi c|r lo hi w1 w2 c c1 c2 Hb Hw _ IH1 _ IH2];
    cbn [words]; intros ws.
  - intros [= <-]. now left.
  - intros H. apply (inj Some) in H. subst ws.
    apply in_map_iff. exists a. split; [reflexivity|].
    apply filter_In. split; [apply in_all_ascii|exact Hq].
  - intros [= <-]. now left.
  - destruct (words r1) as [ws1|]; [|easy]. destruct (words r2) as [ws2|]; [|easy].
    intros [= <-]. apply in_flat_map. exists w1. split; [now apply IH1|].
    apply in_map. now apply IH2.
  - destruct (words r1) as [ws1|]; [|easy]. destruct (words r2) as [ws2|]; [|easy].
    intros [= <-]. apply in_or_app. left. now apply IH.
  - destruct (words r1) as [ws1|]; [|easy]. destruct (words r2) as [ws2|]; [|easy].
    intros [= <-]. apply in_or_app. right. now apply IH.
  - exact (IH ws).
  - destruct hi as [h|]; [|easy]. destruct (words r) as [ws1|]; [|easy].
    intros [= <-]. apply in_rep_words.
  - destruct hi as [h|]; [|easy]. cbn [words option_map] in IH2.
    destruct (words r) as [ws1|]; [|easy].
    intros [= <-]. destruct h as [|h]; [discriminate|]. cbn [rep_words].
    right. apply in_flat_map. exists w1. split; [now apply IH1|].
    apply in_map. now apply IH2.
Qed.




(** ** Texts without the characters that a pattern needs *)

Lemma search_from_sound (r : re) (s : str) : forall prev off m,
  search_from r prev s off = Some m ->
  (exists pre post, s = pre ++ m_text m ++ post) /\
  Matches r (m_text m) [] (m_groups m).
Proof.
  induction s as [|a s IH]; intros prev off m; cbn [search_from].
  - destruct (match_at r prev []) as [[s' c]|] eqn:E; [|easy].
    intros [= <-]. cbn [m_text m_groups]. rewrite ?firstn_nil. simpl.
    apply match_at_sound in E as (w & Hw & M).
    symmetry in Hw. apply app_eq_nil in Hw as [-> _].
    split; [now exists [], []|exact M].
  - destruct (match_at r prev (a :: s)) as [[s' c]|] eqn:E.
    + intros [= <-]. cbn [m_text m_groups].
      apply match_at_sound in E as (w & Hw & M).
      change (S (length s)) with (length (a :: s)).
      rewrite Hw, firstn_consumed.
      split; [now exists [], s'|exact M].
    + intros H. apply IH in H as [(pre & post & ->) M].
      split; [now exists (a :: pre), post|exact M].
Qed.

Lemma forallb_negb_existsb (p : ascii -> bool) (w : str) :
  forallb (fun c => negb (p c)) w = true -> existsb p w = false.
Proof.
  induction w as [|a w IH]; simpl; [reflexivity|].
  intros [Ha Hw]%andb_prop. apply negb_true_iff in Ha. now rewrite Ha, IH.
Qed.

(** A pattern of which every match has a character of [p] has no match in
    a text without such a character. *)
Lemma no_match_without (p : ascii -> bool) (r : re) (s : str) :
  needs p r = true -> forallb (fun c => negb (p c)) s = true ->
  re_search r s = None /\ finditer r s = [].
Proof.
  intros Hn Hs.
  assert (Hno : forall w c pre post, s = pre ++ w ++ post -> Matches r w [] c -> False).
  { intros w c pre post -> M. apply forallb_span in Hs.
    apply forallb_negb_existsb in Hs.
    rewrite (Matches_needs p r w [] c M Hn) in Hs. discriminate. }
  split.
  - destruct (re_search r s) as [m|] eqn:E; [|reflexivity].
    apply search_from_sound in E as [(pre & post & H) M]. now elim (Hno _ _ _ _ H M).
  - destruct (finditer r s) as [|m ms] eqn:E; [reflexivity|].
    assert (Hin : In m (scan r None s 0 0)) by (unfold finditer in E; rewrite E; now left).
    pose proof (scan_sound r s None 0 0 m Hin) as M.
    apply scan_occurs in Hin as (pre & post & H & _). now elim (Hno _ _ _ _ H M).
Qed.






(** ** The metric dict *)

(** The three entries of the dict, by key. *)
Lemma metrics_lookup (doc : str) :
  let m := _extract_metrics doc in
  let percentages := findall1 compliance_patterns.percentage doc in
  let dollar_amounts := findall1 compliance_patterns.dollar_amount doc in
  let dates := findall_snd compliance_patterns.effective_date doc in
  dict_get (L "percentages") m =
    (if nonnil percentages then Some (map (fun p => p ++ L "%") percentages) else None) /\
  dict_get (L "dollar_amounts") m =
    (if nonnil dollar_amounts then Some (map (fun a => L "$" ++ a) dollar_amounts) else None) /\
  dict_get (L "effective_dates") m = (if nonnil dates then Some dates else None).
Proof.
  unfold _extract_metrics.
  destruct (findall1 compliance_patterns.percentage doc);
    destruct (findall1 compliance_patterns.dollar_amount doc);
    destruct (findall_snd compliance_patterns.effective_date doc);
    repeat split; reflexivity.
Qed.

(** X7: the dict has no key "percentages" for a document without the
    character %, no key "dollar_amounts" for one without the character $,
    and no key "effective_dates" for one without the letter e in either
    case. *)
Theorem metric_keys_need_their_sign (doc : str) :
  let m := _extract_metrics doc in
  (forallb (fun c => negb (Ascii.eqb c "%")) doc = true ->
   dict_get (L "percentages") m = None) /\
  (forallb (fun c => negb (Ascii.eqb c "$")) doc = true ->
   dict_get (L "dollar_amounts") m = None) /\
  (forallb (fun c => negb (Ascii.eqb (lower_char c) "e")) doc = true ->
   dict_get (L "effective_dates") m = None).
Proof.
  destruct (metrics_lookup doc) as (Hp & Hd & He). cbv zeta in *.
  rewrite Hp, Hd, He. unfold findall1, findall_snd. repeat split; intros H.
  - assert (N : needs (fun c => Ascii.eqb c "%") compliance_patterns.percentage = true)
      by (vm_compute; reflexivity).
    now destruct (no_match_without _ _ _ N H) as [_ ->].
  - assert (N : needs (fun c => Ascii.eqb c "$") compliance_patterns.dollar_amount = true)
      by (vm_compute; reflexivity).
    now destruct (no_match_without _ _ _ N H) as [_ ->].
  - assert (N : needs (fun c => Ascii.eqb (lower_char c) "e")
                  compliance_patterns.effective_date = true)
      by (vm_compute; reflexivity).
    now destruct (no_match_without _ _ _ N H) as [_ ->].
Qed.

(** ** The texts of the groups *)









(** ** The shape of a deadline *)





(** ** The keywords of the comparator *)

Lemma fold_keywords (ss : list str) : forall acc,
  fold_left (fun acc sentence => acc ++ sentence_keywords sentence) ss acc =
  acc ++ flat_map sentence_keywords ss.
Proof.
  induction ss as [|s ss IH]; intros acc; simpl; [now rewrite app_nil_r|].
  now rewrite IH, app_assoc.
Qed.






(** X11: a document compared with itself has all of its keywords in
    common and none unique on either side, and the report carries no
    recommendation line, whatever the two titles are. *)
Theorem compare_policy_with_itself (today doc title_a title_b : str) :
  let a := _analyze_for_comparison doc in
  common_reqs a a = keyword_set a /\
  unique_to_1 a a = ∅ /\
  unique_to_2 a a = ∅ /\
  compare_policies today doc title_a doc title_b =
    comparison_head today title_a title_b a a.
Proof.
  intros a. unfold common_reqs, unique_to_1, unique_to_2.
  split; [apply intersection_idemp_L|]. split; [apply difference_diag_L|].
  split; [apply difference_diag_L|].
  unfold compare_policies. fold a. now rewrite Nat.ltb_irrefl.
Qed.

Lemma flat_map_nil {A B} (f : A -> list B) (l : list A) :
  (forall x, In x l -> f x = []) -> flat_map f l = [].
Proof.
  induction l as [|x l IH]; intros H; simpl; [reflexivity|].
  rewrite (H x (or_introl eq_refl)). apply IH. intros y Hy. apply H. now right.
Qed.

(** X12: when the analysis of a document finds no mandatory requirement,
    the comparator has no keyword for it, and its complexity score is the
    number of its sentences. *)
Theorem no_requirement_no_keyword (now doc ttl : str) :
  mandatory_requirements (analysis_of now doc ttl) = [] ->
  keyword_set (_analyze_for_comparison doc) = ∅ /\
  complexity_score (_analyze_for_comparison doc) = length (_split_into_sentences doc).
Proof.
  destruct (analysis_fields now doc ttl) as (_ & _ & -> & _).
  intros H. apply map_eq_nil in H.
  assert (E : keyword_set (_analyze_for_comparison doc) = ∅).
  { rewrite keyword_set_analyze, fold_keywords. simpl.
    rewrite flat_map_nil; [reflexivity|]. intros s Hs. unfold sentence_keywords.
    destruct (any_keyword compliance_keywords.mandatory (lower s)) eqn:Hm; [|reflexivity].
    assert (Hin : In s (List.filter (in_class mandatory) (_split_into_sentences doc))).
    { apply filter_In. split; [exact Hs|]. now rewrite in_class_mandatory. }
    rewrite H in Hin. destruct Hin. }
  split; [exact E|]. rewrite complexity_score_analyze, E, size_empty. lia.
Qed.

Lemma no_requirement_no_keyword_witness :
  keyword_set (_analyze_for_comparison (L "Firms may wait. Fraud is banned.")) = ∅ /\
  complexity_score (_analyze_for_comparison (L "Firms may wait. Fraud is banned."))
    = length (_split_into_sentences (L "Firms may wait. Fraud is banned.")).
Proof.
  apply (no_requirement_no_keyword (L "2024-01-01 00:00:00")
           (L "Firms may wait. Fraud is banned.") (L "T")).
  reflexivity.
Defined.

(** ** The title, the summary and the checks on the report *)

Lemma report_sections_title (now doc ttl1 ttl2 : str) :
  report_sections (analysis_of now doc ttl1) = report_sections (analysis_of now doc ttl2).
Proof.
  unfold report_sections.
  destruct (analysis_fields now doc ttl1) as (_ & _ & -> & -> & -> & -> & -> & ->).
  destruct (analysis_fields now doc ttl2) as (_ & _ & -> & -> & -> & -> & -> & ->).
  reflexivity.
Qed.

(** X13: the title is not analysed.  For a given text and clock reading
    there is one text [post] such that the report is the first heading
    line, "Document: " with the title, or with "Untitled Document" when
    the title is empty, and [post]. *)
Theorem title_only_in_heading (now doc : str) :
  exists post, forall ttl,
    analyze_compliance_requirements now doc ttl =
    L "**Policy Compliance Analysis Report**
Document: " ++ (if nonempty ttl then ttl else L "Untitled Document") ++ post.
Proof.
  exists (L "
Analysis Date: " ++ now ++ L "

" ++ report_sections (analysis_of now doc [])).
  intros ttl. unfold analyze_compliance_requirements.
  rewrite format_split, (report_sections_title now doc ttl []).
  destruct (analysis_fields now doc ttl) as (-> & -> & _).
  now rewrite <- !app_assoc.
Qed.

Lemma summary_begin (m d p : nat) :
  exists rest,
    summary_section m d p =
    (L "**📋 COMPLIANCE SUMMARY:**" ++ NL ++ L "- " ++ str_of_nat m)
    ++ L " mandatory requirements identified" ++ rest.
Proof.
  unfold summary_section. cbv zeta.
  destruct ((0 <? m) || (0 <? d)).
  - exists (NL ++ (L "- " ++ str_of_nat d ++ L " critical deadlines found" ++ NL)
            ++ (L "- " ++ str_of_nat p ++ L " penalty provisions noted" ++ NL)
            ++ NL ++ recommendation_text).
    now rewrite <- !app_assoc.
  - exists (NL ++ (L "- " ++ str_of_nat d ++ L " critical deadlines found" ++ NL)
            ++ (L "- " ++ str_of_nat p ++ L " penalty provisions noted" ++ NL)).
    now rewrite <- !app_assoc.
Qed.

Lemma contains_lower_part (s pre x post p : str) :
  s = pre ++ x ++ post -> contains (lower x) p = true -> contains (lower s) p = true.
Proof.
  intros -> H. apply contains_spec in H as (p1 & p2 & H).
  apply contains_spec. unfold lower in *. rewrite !map_app, H.
  exists (map lower_char pre ++ p1), (p2 ++ map lower_char post).
  now rewrite <- !app_assoc.
Qed.

(** X14: the two checks that the callers make on a report hold for every
    document text and title: lowercased, the report contains "compliance",
    from its first heading line, and "mandatory", from its summary. *)
Theorem report_passes_the_callers_checks (now doc ttl : str) :
  custom_analysis_check (analyze_policy_compliance now doc ttl) = true /\
  unit_test_check (analyze_policy_compliance now doc ttl) = true.
Proof.
  unfold custom_analysis_check, unit_test_check, analyze_policy_compliance,
    analyze_compliance_requirements.
  set (a := analysis_of now doc ttl).
  assert (H1 : contains (lower (_format_compliance_analysis a)) (L "compliance") = true).
  { rewrite format_split.
    apply (contains_lower_part _ [] (L "**Policy Compliance Analysis Report**")
             (L "
Document: " ++ (if nonempty (document_title a) then document_title a
                else L "Untitled Document") ++ L "
Analysis Date: " ++ analysis_date a ++ L "

" ++ report_sections a)); [|reflexivity].
    now rewrite <- !app_assoc. }
  assert (H2 : contains (lower (_format_compliance_analysis a)) (L "mandatory") = true).
  { rewrite format_split. unfold report_sections.
    destruct (summary_begin (length (mandatory_requirements a)) (length (deadlines a))
                (length (penalties a))) as [rest ->].
    eapply (contains_lower_part _ _ (L " mandatory requirements identified") rest);
      [|reflexivity].
    rewrite !app_assoc. reflexivity. }
  now rewrite H1, H2.
Qed.

Lemma summary_end (m d p : nat) :
  if (0 <? m) || (0 <? d)
  then exists pre, summary_section m d p = pre ++ recommendation_text
  else exists pre, summary_section m d p = pre ++ NL.
Proof.
  unfold summary_section. cbv zeta.
  destruct ((0 <? m) || (0 <? d)).
  - eexists. rewrite (app_assoc _ NL). reflexivity.
  - exists ((L "**📋 COMPLIANCE SUMMARY:**" ++ NL)
            ++ (L "- " ++ str_of_nat m ++ L " mandatory requirements identified" ++ NL)
            ++ (L "- " ++ str_of_nat d ++ L " critical deadlines found" ++ NL)
            ++ L "- " ++ str_of_nat p ++ L " penalty provisions noted").
    now rewrite <- !app_assoc.
Qed.

Lemma last_app_nonnil (x y : str) : y <> [] -> last (x ++ y) = last y.
Proof.
  intros Hy. rewrite last_app. destruct (last y) eqn:E; [reflexivity|].
  apply last_None in E. contradiction.
Qed.

(** X15: the report ends with the recommendation exactly when the
    analysis has a mandatory requirement or a deadline; penalties,
    prohibited actions and optional provisions alone do not bring it. *)
Theorem recommendation_iff_requirement_or_deadline (now doc ttl : str) :
  let a := analysis_of now doc ttl in
  (mandatory_requirements a <> [] \/ deadlines a <> []) <->
  exists pre, analyze_compliance_requirements now doc ttl = pre ++ recommendation_text.
Proof.
  intros a. unfold analyze_compliance_requirements. fold a.
  rewrite format_split. unfold report_sections.
  pose proof (summary_end (length (mandatory_requirements a)) (length (deadlines a))
                (length (penalties a))) as Hend.
  split.
  - intros H.
    assert (Hb : (0 <? length (mandatory_requirements a))
                 || (0 <? length (deadlines a)) = true).
    { apply orb_true_iff.
      destruct H as [H|H]; [left|right]; apply Nat.ltb_lt;
        [destruct (mandatory_requirements a)|destruct (deadlines a)];
        simpl; try lia; congruence. }
    rewrite Hb in Hend. destruct Hend as [pre ->].
    eexists. rewrite !app_assoc. reflexivity.
  - intros [pre Hpre].
    destruct ((0 <? length (mandatory_requirements a))
              || (0 <? length (deadlines a))) eqn:Hb.
    + apply orb_true_iff in Hb as [Hb|Hb]; apply Nat.ltb_lt in Hb; [left|right];
        intros E; rewrite E in Hb; simpl in Hb; lia.
    + exfalso. destruct Hend as [pre' Hs]. rewrite Hs in Hpre.
      apply (f_equal (@last ascii)) in Hpre.
      rewrite !app_assoc in Hpre.
      rewrite (last_app_nonnil _ NL) in Hpre by discriminate.
      rewrite (last_app_nonnil pre recommendation_text) in Hpre by discriminate.
      vm_compute in Hpre. discriminate.
Qed.

(** ** The stakeholder dict *)

Lemma fold_left_invariant {A B} (P : A -> Prop) (f : A -> B -> A) (l : list B) :
  forall a, P a -> (forall acc x, In x l -> P acc -> P (f acc x)) -> P (fold_left f l a).
Proof.
  induction l as [|x l IH]; intros a Ha Hf; simpl; [exact Ha|].
  apply IH.
  - apply Hf; [now left|exact Ha].
  - intros acc y Hy. apply Hf. now right.
Qed.

(** What holds of the empty dict and is kept by every [append] of the
    loops holds of the dict of a document. *)
Lemma stakeholders_invariant (doc : str) (P : list (str * list str) -> Prop) :
  P [] ->
  (forall d s pattern g,
     In s (_split_into_sentences doc) -> In pattern stakeholder_patterns.all ->
     In g (findall1 pattern (lower s)) ->
     P d -> P (dict_append (strip g) (strip s) d)) ->
  P (stakeholders_of doc).
Proof.
  intros H0 Hstep. unfold stakeholders_of.
  apply fold_left_invariant; [exact H0|]. intros d s Hs Hd.
  unfold add_sentence. apply fold_left_invariant; [exact Hd|]. intros d1 pattern Hp Hd1.
  unfold add_matches. apply fold_left_invariant; [exact Hd1|]. intros d2 g Hg Hd2.
  now apply (Hstep d2 s pattern g).
Qed.

Lemma dict_append_keys (k v : str) (d : list (str * list str)) (k' : str) :
  In k' (map fst (dict_append k v d)) -> k' = k \/ In k' (map fst d).
Proof.
  induction d as [|[k0 vs] d IH]; simpl.
  - intros [<-|[]]. now left.
  - destruct (decide (k0 = k)) as [->|Hne]; simpl.
    + intros [<-|H]; [now left|right; now right].
    + intros [<-|H]; [right; now left|].
      destruct (IH H) as [->|H']; [now left|right; now right].
Qed.

Lemma dict_append_NoDup (k v : str) (d : list (str * list str)) :
  NoDup (map fst d) -> NoDup (map fst (dict_append k v d)).
Proof.
  induction d as [|[k0 vs] d IH]; simpl; intros H.
  - constructor; [intros []%elem_of_nil|constructor].
  - apply NoDup_cons in H as [Hk0 Hd].
    destruct (decide (k0 = k)) as [->|Hne]; simpl.
    + now apply NoDup_cons.
    + apply NoDup_cons. split; [|now apply IH].
      rewrite list_elem_of_In. intros H.
      apply dict_append_keys in H as [->|H]; [congruence|].
      apply Hk0. now apply list_elem_of_In.
Qed.

Lemma dict_append_entry (k v : str) (d : list (str * list str)) (k' : str) (vs' : list str) :
  In (k', vs') (dict_append k v d) ->
  In (k', vs') d \/
  (k' = k /\ exists vs0, vs' = vs0 ++ [v] /\ (vs0 = [] \/ In (k, vs0) d)).
Proof.
  induction d as [|[k0 vs] d IH]; simpl.
  - intros [[= <- <-]|[]]. right. split; [reflexivity|]. exists []. split; [reflexivity|now left].
  - destruct (decide (k0 = k)) as [->|Hne]; simpl.
    + intros [[= <- <-]|H].
      * right. split; [reflexivity|]. exists vs. split; [reflexivity|]. right. now left.
      * left. now right.
    + intros [[= <- <-]|H]; [left; now left|].
      destruct (IH H) as [H'|(-> & vs0 & -> & [->|H'])].
      * left. now right.
      * right. split; [reflexivity|]. exists []. split; [reflexivity|now left].
      * right. split; [reflexivity|]. exists vs0. split; [reflexivity|]. right. now right.
Qed.

Lemma dict_append_entries (k v : str) (d : list (str * list str)) :
  entries (dict_append k v d) = S (entries d).
Proof.
  unfold entries. induction d as [|[k0 vs] d IH]; simpl; [reflexivity|].
  destruct (decide (k0 = k)) as [->|Hne]; simpl.
  - rewrite length_app. simpl. lia.
  - rewrite IH. lia.
Qed.

(** A match of a stakeholder pattern is one of the nouns, and is the text
    of the group. *)
Lemma stakeholder_match (pattern : re) (w : str) (c : caps) :
  In pattern stakeholder_patterns.all -> Matches pattern w [] c ->
  In w stakeholder_nouns /\ group 1 c = Some w.
Proof.
  intros Hp M.
  assert (Hw : exists ws, words pattern = Some ws /\
                 forallb (fun x => bool_decide (x ∈ stakeholder_nouns)) ws = true).
  { repeat (destruct Hp as [<-|Hp];
            [eexists; split; [vm_compute; reflexivity|vm_compute; reflexivity]|]).
    destruct Hp. }
  destruct Hw as (ws & Hws & Hall). split.
  - apply (Matches_words _ _ _ _ M) in Hws.
    rewrite forallb_forall in Hall. specialize (Hall w Hws).
    apply bool_decide_eq_true in Hall. now apply list_elem_of_In.
  - repeat (destruct Hp as [<-|Hp]; [inversion M; subst; reflexivity|]).
    destruct Hp.
Qed.

Lemma nouns_stripped : Forall (fun w => strip w = w) stakeholder_nouns.
Proof. repeat constructor. Qed.

(** X16: in the dict of the stakeholders every key is one of the nouns of
    the patterns, no key occurs twice, every key has a sentence, and
    every sentence listed under a key is a sentence of the document whose
    lowercased text contains the key. *)
Theorem stakeholder_dict_is_well_formed (doc : str) :
  let d := stakeholders_of doc in
  NoDup (map fst d) /\
  forall k vs, In (k, vs) d ->
    In k stakeholder_nouns /\ vs <> [] /\
    forall v, In v vs ->
      In v (_split_into_sentences doc) /\ contains (lower v) k = true.
Proof.
  apply (stakeholders_invariant doc (fun d =>
    NoDup (map fst d) /\
    forall k vs, In (k, vs) d ->
      In k stakeholder_nouns /\ vs <> [] /\
      forall v, In v vs ->
        In v (_split_into_sentences doc) /\ contains (lower v) k = true)).
  - split; [constructor|intros k vs []].
  - intros d s pattern g Hs Hp Hg [Hnd Hd].
    split; [now apply dict_append_NoDup|].
    (* the appended key and value *)
    unfold findall1 in Hg. apply in_map_iff in Hg as (m & <- & Hm).
    pose proof (scan_sound _ _ None 0 0 m Hm) as M.
    apply scan_occurs in Hm as (pre & post & Hocc & _).
    destruct (stakeholder_match _ _ _ Hp M) as [Hnoun Hgrp].
    unfold group_text. rewrite Hgrp. cbn [default from_option id].
    pose proof nouns_stripped as Hst. rewrite List.Forall_forall in Hst.
    rewrite (Hst _ Hnoun).
    destruct (sentence_stripped doc s Hs) as [-> _].
    assert (Hnew : contains (lower s) (m_text m) = true)
      by (apply contains_spec; now exists pre, post).
    intros k vs Hin.
    apply dict_append_entry in Hin as [Hin|(-> & vs0 & -> & Hvs0)].
    + now apply Hd.
    + split; [exact Hnoun|]. split; [now destruct vs0|].
      intros v [Hv|Hv]%in_app_or.
      * destruct Hvs0 as [->|Hin0]; [destruct Hv|].
        destruct (Hd _ _ Hin0) as (_ & _ & Hall). now apply Hall.
      * destruct Hv as [<-|[]]. now split.
Qed.

(** X17: a document of whitespace, the empty one included, gives the
    heading of the stakeholder report and nothing else. *)
Theorem blank_document_has_no_stakeholders (doc : str) :
  forallb is_space doc = true ->
  extract_policy_stakeholders doc = L "**Stakeholder Responsibility Analysis**

".
Proof.
  intros H. unfold extract_policy_stakeholders, extract_stakeholders, stakeholders_of.
  rewrite (sentences_blank doc H). reflexivity.
Qed.

Lemma blank_document_has_no_stakeholders_witness :
  extract_policy_stakeholders (L "  ") = L "**Stakeholder Responsibility Analysis**

".
Proof. apply (blank_document_has_no_stakeholders (L "  ")). reflexivity. Defined.

Lemma add_matches_entries (s : str) (pattern : re) (d : list (str * list str)) :
  entries (add_matches s d pattern) = entries d + length (findall1 pattern (lower s)).
Proof.
  unfold add_matches. revert d.
  induction (findall1 pattern (lower s)) as [|g gs IH]; intros d; simpl; [lia|].
  rewrite IH, dict_append_entries. lia.
Qed.

Lemma add_patterns_entries (s : str) (ps : list re) : forall d,
  entries (fold_left (add_matches s) ps d) =
  entries d + list_sum (map (fun pattern => length (findall1 pattern (lower s))) ps).
Proof.
  induction ps as [|p ps IH]; intros d; simpl; [lia|].
  rewrite IH, add_matches_entries. lia.
Qed.

Lemma add_sentences_entries (ss : list str) : forall d,
  entries (fold_left add_sentence ss d) = entries d + list_sum (map matches_in ss).
Proof.
  induction ss as [|s ss IH]; intros d; simpl; [lia|].
  rewrite IH. unfold add_sentence. rewrite add_patterns_entries.
  unfold matches_in. lia.
Qed.

(** X18: the dict lists a sentence once for every match of a stakeholder
    pattern in it: the number of listed sentences, over all keys, is the
    number of matches of the six patterns in the sentences of the
    document.  A sentence with two matches is listed twice. *)
Theorem stakeholder_entries_count_matches (doc : str) :
  entries (stakeholders_of doc) = list_sum (map matches_in (_split_into_sentences doc)).
Proof. unfold stakeholders_of. now rewrite add_sentences_entries. Qed.

(** ** Prohibited actions and hidden requirements *)

(** X19: every sentence among the prohibited actions contains, in its
    lowercased text, "prohibited", "forbidden" or "banned": the triggers
    "shall not", "must not" and "cannot" never bring a sentence there. *)
Theorem prohibited_actions_name_the_ban (now doc ttl s : str) :
  In s (prohibited_actions (analysis_of now doc ttl)) ->
  any_keyword (map L ["prohibited"; "forbidden"; "banned"]%string) (lower s) = true.
Proof.
  destruct (analysis_fields now doc ttl) as (_ & _ & _ & _ & -> & _).
  intros H. apply in_filtered in H as [_ H].
  apply prohibited_deciding_triggers.
  unfold in_class in H. now apply bool_decide_eq_true in H.
Qed.

Lemma prohibited_actions_name_the_ban_witness :
  any_keyword (map L ["prohibited"; "forbidden"; "banned"]%string)
    (lower (L "Dumping is FORBIDDEN")) = true.
Proof.
  apply (prohibited_actions_name_the_ban (L "2024-01-01 00:00:00")
           (L "Dumping is FORBIDDEN. Firms shall not pay.") (L "T")
           (L "Dumping is FORBIDDEN")).
  vm_compute. left. reflexivity.
Defined.

(** X20: when the analysis has more than five mandatory requirements,
    the report has, after the five that it shows, the line
    "... and K more" with K the number of the others, and an empty line. *)
Theorem report_tells_hidden_requirements (now doc ttl : str) :
  let n := length (mandatory_requirements (analysis_of now doc ttl)) in
  5 < n ->
  exists pre post,
    analyze_compliance_requirements now doc ttl =
    pre ++ (L "... and " ++ str_of_nat (n - 5) ++ L " more" ++ NL ++ NL) ++ post.
Proof.
  intros n Hn. unfold analyze_compliance_requirements.
  rewrite format_split. unfold report_sections.
  destruct (mandatory_section_more _ Hn) as (shown & k & Hk & ->).
  fold n in Hk. replace (n - 5) with k by lia.
  match goal with
  | |- exists pre post, ?h ++ ?d ++ ?c ++ (shown ++ ?m) ++ ?rest = _ =>
      exists (h ++ d ++ c ++ shown), rest
  end.
  now rewrite <- !app_assoc.
Qed.

Lemma report_tells_hidden_requirements_witness :
  let doc := L "A must. B must. C must. D must. E must. F must. G must." in
  let now := L "2024-01-01 00:00:00" in
  let n := length (mandatory_requirements (analysis_of now doc (L "T"))) in
  exists pre post,
    analyze_compliance_requirements now doc (L "T") =
    pre ++ (L "... and " ++ str_of_nat (n - 5) ++ L " more" ++ NL ++ NL) ++ post.
Proof.
  apply (report_tells_hidden_requirements (L "2024-01-01 00:00:00")
           (L "A must. B must. C must. D must. E must. F must. G must.") (L "T")).
  vm_compute. lia.
Defined.

(** ** Instances *)

Lemma metric_keys_need_their_sign_witness :
  dict_get (L "percentages") (_extract_metrics (L "Pay $5 now")) = None.
Proof.
  apply (proj1 (metric_keys_need_their_sign (L "Pay $5 now"))). reflexivity.
Defined.


Lemma stakeholder_dict_is_well_formed_witness :
  In (L "banks") stakeholder_nouns /\
  [L "Banks serve consumers"] <> [] /\
  forall v, In v [L "Banks serve consumers"] ->
    In v (_split_into_sentences (L "Banks serve consumers.")) /\
    contains (lower v) (L "banks") = true.
Proof.
  apply (proj2 (stakeholder_dict_is_well_formed (L "Banks serve consumers."))).
  vm_compute. left. reflexivity.
Defined.
